(** * Placement simulation engine of the bin-packing visualiser

    A shallow embedding of [python_agent/simulation/gui.py]: the bins
    dictionary of [BinPackingSimulation], its command queue, the
    synchronous placement, reset and snapshot methods, and the
    thread-safe front door [place_item].

    Numbers.  Python passes coordinates and sizes as [int] or [float];
    they are embedded as exact rationals ([Q]), so rounding of doubles
    is outside the model.  Identifiers are Python [int]s, embedded as
    [Z], and are formatted in decimal as an f-string does.

    The widgets (canvas, statistics text box) are not part of the model:
    [draw_bins] only reads the bins, and [update_stats_sync] matters only
    because it calls [get_simulation_state], which can raise. *)

From Stdlib Require Import ZArith QArith Lqa.
From Stdlib Require Import Ascii Qround.
From stdpp Require Import gmap strings list fin_maps pretty.

Local Close Scope Q_scope.
Local Open Scope Z_scope.
Local Open Scope string_scope.

(** ** Data model *)

(** The [PlacedItem] dataclass. *)
Record PlacedItem := mkPlacedItem {
  item_id : Z;
  item_type : string;
  bin_id : Z;
  x : Q;
  y : Q;
  width : Q;
  height : Q;
  shape : string
}.

(** One value of [self.bins]: [{"width": .., "height": .., "items": [..]}]. *)
Record BinData := mkBinData {
  bin_width : Q;
  bin_height : Q;
  bin_items : list PlacedItem
}.

(** The dictionaries put on [self.command_queue].  [execute_command]
    dispatches on the ["type"] entry; every other type is ignored. *)
Inductive Command :=
| CmdPlaceItem (item : PlacedItem)
| CmdReset
| CmdUpdateStats
| CmdOther (cmd_type : string).

(** The part of a [BinPackingSimulation] object that the methods below
    read and write. *)
Record Simulation := mkSimulation {
  bins : gmap Z BinData;
  command_queue : list Command
}.

(** [BinPackingSimulation.__init__]: four empty bins, empty queue. *)
Definition init_bins : gmap Z BinData :=
  <[0 := mkBinData (220#1) (220#1) []]>
  (<[1 := mkBinData (180#1) (200#1) []]>
  (<[2 := mkBinData (200#1) (180#1) []]>
  (<[3 := mkBinData (160#1) (160#1) []]> ∅))).

Definition init_simulation : Simulation := mkSimulation init_bins [].

(** ** Geometry *)

(** Python's [a > b] on numbers; [Qle_bool] is its [a <= b]. *)
Definition Qgtb (a b : Q) : bool := negb (Qle_bool a b).

(** [items_overlap].  The sums are exact here; Python adds doubles. *)
Definition items_overlap (item1 item2 : PlacedItem) : bool :=
  negb (Qle_bool (x item1 + width item1) (x item2)
        || Qle_bool (x item2 + width item2) (x item1)
        || Qle_bool (y item1 + height item1) (y item2)
        || Qle_bool (y item2 + height item2) (y item1)).

(** The condition of the [if] that guards the "does not fit" return in
    [place_item_sync].  The sums are exact here; Python adds doubles. *)
Definition exceeds_bin (bin_data : BinData) (item : PlacedItem) : bool :=
  Qgtb (x item + width item) (bin_width bin_data)
  || Qgtb (y item + height item) (bin_height bin_data).

(** ** Placement *)

(** The validation steps a call of [place_item_sync] evaluates, in the
    order it evaluates them: the membership test on [self.bins], the
    bounds comparison, and each call of [self.items_overlap] with the
    existing item it was given. *)
Inductive Check :=
| CheckBin
| CheckFit
| CheckOverlap (existing_item : PlacedItem).

(** The [for existing_item in bin_data["items"]] loop: the first
    existing item the new one overlaps, together with the items the loop
    compared before it returned or ran out. *)
Fixpoint scan_overlaps (new_item : PlacedItem) (items : list PlacedItem)
  : option PlacedItem * list Check :=
  match items with
  | [] => (None, [])
  | existing_item :: rest =>
      if items_overlap new_item existing_item
      then (Some existing_item, [CheckOverlap existing_item])
      else let '(hit, log) := scan_overlaps new_item rest in
           (hit, CheckOverlap existing_item :: log)
  end.

(** What a call of [place_item_sync] leaves behind: the string it
    returns, the simulation afterwards, and the checks it evaluated. *)
Record PlaceResult := mkPlaceResult {
  message : string;
  sim_after : Simulation;
  checks : list Check
}.

Definition msg_no_bin (bin : Z) : string :=
  "Error: Bin " +:+ pretty bin +:+ " does not exist".
Definition msg_no_fit (item bin : Z) : string :=
  "Error: Item " +:+ pretty item +:+ " does not fit in bin " +:+ pretty bin.
Definition msg_overlap (item other : Z) : string :=
  "Error: Item " +:+ pretty item +:+ " overlaps with existing item "
  +:+ pretty other.
Definition msg_placed (item bin : Z) : string :=
  "Successfully placed item " +:+ pretty item +:+ " in bin " +:+ pretty bin.

(** [bin_data["items"].append(new_item)] on the bin stored under [bin]. *)
Definition append_item (bin : Z) (bin_data : BinData) (new_item : PlacedItem)
    (sim : Simulation) : Simulation :=
  mkSimulation
    (<[bin := mkBinData (bin_width bin_data) (bin_height bin_data)
                        (bin_items bin_data ++ [new_item])]> (bins sim))
    (command_queue sim).

(** [place_item_sync].  The eight arguments are carried as the
    [PlacedItem] the method builds from them.  The redraw and the
    statistics refresh after the append only touch the widgets; the
    refresh cannot raise there, see [placed_snapshot_defined]. *)
Definition place_item_sync (sim : Simulation) (new_item : PlacedItem)
  : PlaceResult :=
  match bins sim !! bin_id new_item with
  | None =>
      mkPlaceResult (msg_no_bin (bin_id new_item)) sim [CheckBin]
  | Some bin_data =>
      if exceeds_bin bin_data new_item
      then mkPlaceResult (msg_no_fit (item_id new_item) (bin_id new_item))
                         sim [CheckBin; CheckFit]
      else
        match scan_overlaps new_item (bin_items bin_data) with
        | (Some existing_item, log) =>
            mkPlaceResult
              (msg_overlap (item_id new_item) (item_id existing_item))
              sim (CheckBin :: CheckFit :: log)
        | (None, log) =>
            mkPlaceResult
              (msg_placed (item_id new_item) (bin_id new_item))
              (append_item (bin_id new_item) bin_data new_item sim)
              (CheckBin :: CheckFit :: log)
        end
  end.

(** ** Reset and snapshot *)

(** An entry of the ["items"] list of a snapshot: the item without its
    [bin_id]. *)
Record ItemView := mkItemView {
  view_item_id : Z;
  view_item_type : string;
  view_x : Q;
  view_y : Q;
  view_width : Q;
  view_height : Q;
  view_shape : string
}.

(** A value of [state["bins"]]. *)
Record BinView := mkBinView {
  view_bin_width : Q;
  view_bin_height : Q;
  view_items : list ItemView;
  utilization : Q
}.

(** The dictionary [get_simulation_state] returns. *)
Record SimulationState := mkSimulationState {
  state_bins : gmap Z BinView;
  total_items : Z;
  total_utilization : Q
}.

Definition item_view (item : PlacedItem) : ItemView :=
  mkItemView (item_id item) (item_type item) (x item) (y item)
             (width item) (height item) (shape item).

(** [sum(item.width * item.height for item in items)]: the built-in
    starts from 0 and adds from the left. *)
Definition used_area (items : list PlacedItem) : Q :=
  fold_left (λ acc item, (acc + width item * height item)%Q) items 0%Q.

(** The [utilization] local of the loop body. *)
Definition bin_utilization (bin_data : BinData) : Q :=
  let total_area := (bin_width bin_data * bin_height bin_data)%Q in
  if Qgtb total_area 0
  then (used_area (bin_items bin_data) / total_area * 100)%Q
  else 0%Q.

(** One iteration of [for bin_id, bin_data in self.bins.items()]. *)
Definition snapshot_step (state : SimulationState) (entry : Z * BinData)
  : SimulationState :=
  let '(bin, bin_data) := entry in
  let items := bin_items bin_data in
  let utilization := bin_utilization bin_data in
  mkSimulationState
    (<[bin := mkBinView (bin_width bin_data) (bin_height bin_data)
                        (item_view <$> items) utilization]> (state_bins state))
    (total_items state + Z.of_nat (length items))
    (total_utilization state + utilization)%Q.

(** The state after the loop, before the final division. *)
Definition snapshot_loop (sim : Simulation) : SimulationState :=
  fold_left snapshot_step (map_to_list (bins sim))
            (mkSimulationState ∅ 0 0%Q).

(** [get_simulation_state].  [None] is the [ZeroDivisionError] of the
    final [/= len(self.bins)].  The loop visits the bins in the order of
    [map_to_list], which need not be the dictionary's insertion order;
    the sums agree as rationals. *)
Definition get_simulation_state (sim : Simulation) : option SimulationState :=
  let state := snapshot_loop sim in
  if decide (size (bins sim) = 0%nat) then None
  else Some (mkSimulationState
               (state_bins state) (total_items state)
               (total_utilization state / inject_Z (Z.of_nat (size (bins sim))))%Q).

(** [update_stats_sync]: the text it renders goes to a widget; what is
    kept is whether [get_simulation_state] raised. *)
Definition update_stats_sync (sim : Simulation) : option unit :=
  _ ← get_simulation_state sim; Some ().

(** [bin_data["items"].clear()]. *)
Definition clear_items (bin_data : BinData) : BinData :=
  mkBinData (bin_width bin_data) (bin_height bin_data) [].

(** [reset_simulation_sync]; [None] when the statistics refresh at its
    end raises. *)
Definition reset_simulation_sync (sim : Simulation) : option Simulation :=
  let sim' := mkSimulation (clear_items <$> bins sim) (command_queue sim) in
  _ ← update_stats_sync sim'; Some sim'.

(** ** Command queue *)

(** [self.command_queue.put(command)]. *)
Definition put (command : Command) (sim : Simulation) : Simulation :=
  mkSimulation (bins sim) (command_queue sim ++ [command]).

Section PublicApi.
(** How an f-string renders the [x] and [y] it is given ([str] of an
    [int] or a [float]); the model does not fix it. *)
Variable format_number : Q → string.

(** [place_item]: queues the command and returns at once. *)
Definition place_item (sim : Simulation) (item : PlacedItem)
  : string * Simulation :=
  ("Placed item " +:+ pretty (item_id item) +:+ " in bin "
     +:+ pretty (bin_id item) +:+ " at (" +:+ format_number (x item)
     +:+ ", " +:+ format_number (y item) +:+ ")",
   put (CmdPlaceItem item) sim).
End PublicApi.

(** [reset_simulation]. *)
Definition reset_simulation (sim : Simulation) : string * Simulation :=
  ("Simulation reset", put CmdReset sim).

(** [execute_command]: the value [place_item_sync] returns is dropped. *)
Definition execute_command (sim : Simulation) (command : Command)
  : option Simulation :=
  match command with
  | CmdPlaceItem item => Some (sim_after (place_item_sync sim item))
  | CmdReset => reset_simulation_sync sim
  | CmdUpdateStats => _ ← update_stats_sync sim; Some sim
  | CmdOther _ => Some sim
  end.

(** One atomic move of the engine: a producer queues a command, or the
    loop of [process_commands] takes the oldest one and executes it.
    (The [None] sentinel that ends the loop is never queued by this
    file.) *)
Inductive step : Simulation → Simulation → Prop :=
| step_put sim command :
    step sim (put command sim)
| step_execute sim command queue sim' :
    command_queue sim = command :: queue →
    execute_command (mkSimulation (bins sim) queue) command = Some sim' →
    step sim sim'.

(** The states the engine can be in. *)
Definition reachable (sim : Simulation) : Prop := rtc step init_simulation sim.

(** ** Vocabulary of the properties *)

(** A call was rejected when the string it returned is an error report
    (the callers test the returned string for ["Error"]). *)
Definition rejected (result : PlaceResult) : Prop :=
  ∃ reason, message result = "Error: " +:+ reason.

(** The bounds a placed box is meant to respect in its bin. *)
Definition within_bin (bin_data : BinData) (item : PlacedItem) : Prop :=
  (0 <= x item ∧ 0 <= y item
   ∧ x item + width item <= bin_width bin_data
   ∧ y item + height item <= bin_height bin_data)%Q.

(** The two bounds the guard of [place_item_sync] compares. *)
Definition within_far_edges (bin_data : BinData) (item : PlacedItem) : Prop :=
  (x item + width item <= bin_width bin_data
   ∧ y item + height item <= bin_height bin_data)%Q.

(** The separation condition of two boxes, as a proposition. *)
Definition separated (a b : PlacedItem) : Prop :=
  (x a + width a <= x b ∨ x b + width b <= x a
   ∨ y a + height a <= y b ∨ y b + height b <= y a)%Q.

(** No two entries of an item list overlap. *)
Definition overlap_free (items : list PlacedItem) : Prop :=
  ∀ i j a b, i ≠ j → items !! i = Some a → items !! j = Some b →
             items_overlap a b = false.

Definition no_overlap (sim : Simulation) : Prop :=
  map_Forall (λ _ bin_data, overlap_free (bin_items bin_data)) (bins sim).

Definition far_edges_respected (sim : Simulation) : Prop :=
  map_Forall (λ _ bin_data,
                Forall (within_far_edges bin_data) (bin_items bin_data))
             (bins sim).

(** Identity and dimensions of the bins are those of the constructor. *)
Definition bin_dims (bin_data : BinData) : Q * Q :=
  (bin_width bin_data, bin_height bin_data).

Definition dims_fixed (sim : Simulation) : Prop :=
  ∀ bin, bin_dims <$> bins sim !! bin = bin_dims <$> init_bins !! bin.

(** Sums and means of rationals. *)
Definition Qsum (l : list Q) : Q := foldr Qplus 0%Q l.

Definition Qmean (l : list Q) : Q :=
  (Qsum l / inject_Z (Z.of_nat (length l)))%Q.

(** Sum of the bounding-box areas of a list of items. *)
Definition area_sum (items : list PlacedItem) : Q :=
  Qsum ((λ item, width item * height item)%Q <$> items).

(** The dictionary [get_simulation_state] stores for one bin. *)
Definition bin_view (bin_data : BinData) : BinView :=
  mkBinView (bin_width bin_data) (bin_height bin_data)
            (item_view <$> bin_items bin_data) (bin_utilization bin_data).

(** The reason strings as the specification words them. *)
Definition contract_no_bin (bin : Z) : string :=
  "bin " +:+ pretty bin +:+ " does not exist".
Definition contract_no_fit (item bin : Z) : string :=
  "item " +:+ pretty item +:+ " does not fit in bin " +:+ pretty bin.
Definition contract_overlap (item other : Z) : string :=
  "item " +:+ pretty item +:+ " overlaps with existing item " +:+ pretty other.

(** The four ways a call of [place_item_sync] can end. *)
Inductive PlaceCase (sim : Simulation) (item : PlacedItem) : PlaceResult → Prop :=
| case_no_bin :
    bins sim !! bin_id item = None →
    PlaceCase sim item (mkPlaceResult (msg_no_bin (bin_id item)) sim [CheckBin])
| case_no_fit bin_data :
    bins sim !! bin_id item = Some bin_data →
    exceeds_bin bin_data item = true →
    PlaceCase sim item
      (mkPlaceResult (msg_no_fit (item_id item) (bin_id item)) sim
                     [CheckBin; CheckFit])
| case_overlap bin_data existing log :
    bins sim !! bin_id item = Some bin_data →
    exceeds_bin bin_data item = false →
    scan_overlaps item (bin_items bin_data) = (Some existing, log) →
    PlaceCase sim item
      (mkPlaceResult (msg_overlap (item_id item) (item_id existing)) sim
                     (CheckBin :: CheckFit :: log))
| case_placed bin_data log :
    bins sim !! bin_id item = Some bin_data →
    exceeds_bin bin_data item = false →
    scan_overlaps item (bin_items bin_data) = (None, log) →
    PlaceCase sim item
      (mkPlaceResult (msg_placed (item_id item) (bin_id item))
                     (append_item (bin_id item) bin_data item sim)
                     (CheckBin :: CheckFit :: log)).

(** ** Scenario data *)

Definition rect (id bin : Z) (px py w h : Q) : PlacedItem :=
  mkPlacedItem id "Rectangle A" bin px py w h "RECTANGLE".

Definition item_A : PlacedItem := rect 1 0 0 0 50 50.
Definition item_B : PlacedItem := rect 2 0 25 25 50 50.
Definition item_C : PlacedItem := rect 3 0 60 0 50 50.

(** An item for a bin that was never configured. *)
Definition item_bin99 : PlacedItem := rect 1 99 0 0 50 50.
(** An item sticking out of bin 0 on the left. *)
Definition item_left : PlacedItem := rect 2 0 (-10) 0 20 20.
(** An item lying wholly to the left of bin 0. *)
Definition item_outside : PlacedItem := rect 1 0 (-100) 0 50 50.

Definition sim_A : Simulation := sim_after (place_item_sync init_simulation item_A).
Definition sim_AB : Simulation := sim_after (place_item_sync sim_A item_B).
Definition sim_ABC : Simulation := sim_after (place_item_sync sim_AB item_C).

(** ** Further vocabulary *)

(** Two items describe the same box of the same bin; ids, type labels
    and shapes may differ. *)
Definition same_box (a b : PlacedItem) : Prop :=
  bin_id a = bin_id b ∧ x a = x b ∧ y a = y b
  ∧ width a = width b ∧ height a = height b.

(** Every stored item names the bin that holds it. *)
Definition owner_recorded (m : gmap Z BinData) : Prop :=
  map_Forall (λ bin bin_data,
                Forall (λ item, bin_id item = bin) (bin_items bin_data)) m.

(** Number of items stored over all bins. *)
Definition count_items (m : gmap Z BinData) : nat :=
  sum_list ((λ entry : Z * BinData, length (bin_items entry.2))
              <$> map_to_list m).

(** ** Draining the queue *)

(** The [while True] loop of [process_commands] while no producer adds
    to the queue: commands are taken oldest first; the loop ends when
    [get] times out on the empty queue ([queue.Empty] is caught); an
    exception of [execute_command] propagates ([None]). *)
Fixpoint drain (queue : list Command) (sim : Simulation) : option Simulation :=
  match queue with
  | [] => Some sim
  | command :: rest =>
      sim' ← execute_command (mkSimulation (bins sim) rest) command;
      drain rest sim'
  end.

Definition process_commands (sim : Simulation) : option Simulation :=
  drain (command_queue sim) sim.


(** ** The plan runner of [simple_simulation.py] *)

(** Python's [needle in hay] on strings. *)
Fixpoint is_substring (needle hay : string) : bool :=
  String.prefix needle hay
  || match hay with
     | EmptyString => false
     | String _ rest => is_substring needle rest
     end.

(** Whether a character occurs in a string. *)
Fixpoint mentions (c : ascii) (s : string) : bool :=
  match s with
  | EmptyString => false
  | String c' rest => bool_decide (c = c') || mentions c rest
  end.

(** The lines [simulate_placement] prints, by the [print] statement
    that produces them. *)
Inductive Printed :=
| PrintStarting
| PrintPlacing (number total : nat) (item_type : string) (bin : Z)
| PrintFailure (result : string)
| PrintSuccess (result : string)
| PrintCompleted.

Section PlanRunner.
Variable format_number : Q → string.

(** The body of [for i, step in enumerate(plan)]; [i] counts from 0 and
    [total] is [len(plan)]. *)
Fixpoint simulate_steps (total i : nat) (plan : list PlacedItem)
    (sim : Simulation) : list Printed * Simulation :=
  match plan with
  | [] => ([], sim)
  | step :: rest =>
      let '(result, sim') := place_item format_number sim step in
      let report := if is_substring "Error" result
                    then PrintFailure result else PrintSuccess result in
      let '(printed, sim'') := simulate_steps total (S i) rest sim' in
      (PrintPlacing (S i) total (item_type step) (bin_id step)
         :: report :: printed, sim'')
  end.

(** [simulate_placement]. *)
Definition simulate_placement (sim : Simulation) (plan : list PlacedItem)
  : list Printed * Simulation :=
  let '(printed, sim') := simulate_steps (length plan) 0 plan sim in
  (PrintStarting :: printed ++ [PrintCompleted], sim').
End PlanRunner.

(** ** Locating the JSON object in the optimizer's output *)

(** The code that follows [subprocess.run] in [run_optimization]
    ([simple_simulation.py]) and in [optimize_bin_packing]
    ([tools/optimization_tools.py]).  Text is a sequence of Unicode code
    points, as a Python [str] is. *)
Definition newline : N := 10.
Definition open_brace : N := 123.
Definition close_brace : N := 125.

(** The code points [str.strip] removes: those with [str.isspace]. *)
Definition is_space (c : N) : bool :=
  ((9 <=? c) && (c <=? 13) || (28 <=? c) && (c <=? 32)
   || (c =? 133) || (c =? 160) || (c =? 5760)
   || (8192 <=? c) && (c <=? 8202)
   || (c =? 8232) || (c =? 8233) || (c =? 8239) || (c =? 8287)
   || (c =? 12288))%N.

(** [text.split('\n')]. *)
Fixpoint split_lines (text : list N) : list (list N) :=
  match text with
  | [] => [[]]
  | c :: rest =>
      if (c =? newline)%N then [] :: split_lines rest
      else match split_lines rest with
           | [] => [[c]]
           | line :: lines => (c :: line) :: lines
           end
  end.

(** ['\n'.join(lines)]. *)
Fixpoint join_lines (lines : list (list N)) : list N :=
  match lines with
  | [] => []
  | [line] => line
  | line :: rest => (line ++ newline :: join_lines rest)%list
  end.

(** [line.strip().startswith('{')]. *)
Fixpoint starts_with_brace (line : list N) : bool :=
  match line with
  | [] => false
  | c :: rest => if is_space c then starts_with_brace rest
                 else (c =? open_brace)%N
  end.

(** The first [for] loop: the index of the first line that starts with
    an opening brace; [None] stands for [json_start == -1]. *)
Fixpoint find_json_start (output_lines : list (list N)) : option nat :=
  match output_lines with
  | [] => None
  | line :: rest =>
      if starts_with_brace line then Some 0%nat
      else S <$> find_json_start rest
  end.

(** The inner [for char in line] loop, entered with [brace_count];
    [None] is the [break] at the closing brace, otherwise the count at
    the end of the line. *)
Fixpoint scan_chars (brace_count : Z) (line : list N) : option Z :=
  match line with
  | [] => Some brace_count
  | char :: rest =>
      if (char =? open_brace)%N then scan_chars (brace_count + 1) rest
      else if (char =? close_brace)%N then
        if (brace_count - 1 =? 0)%Z then None
        else scan_chars (brace_count - 1) rest
      else scan_chars brace_count rest
  end.

(** The outer [for i in range(json_start, len(output_lines))] loop on
    the lines from [json_start] on: how many of them are taken, that
    is [json_end - json_start]; [None] stands for [json_end == -1]. *)
Fixpoint scan_lines (brace_count : Z) (lines : list (list N)) : option nat :=
  match lines with
  | [] => None
  | line :: rest =>
      match scan_chars brace_count line with
      | None => Some 1%nat
      | Some brace_count' => S <$> scan_lines brace_count' rest
      end
  end.

Inductive ExtractError := NoJsonOutput | IncompleteJsonOutput.

(** From [output_lines] to [json_output]. *)
Definition extract_json_lines (output_lines : list (list N))
  : ExtractError + list N :=
  match find_json_start output_lines with
  | None => inl NoJsonOutput
  | Some json_start =>
      match scan_lines 0 (drop json_start output_lines) with
      | None => inl IncompleteJsonOutput
      | Some taken =>
          inr (join_lines (take taken (drop json_start output_lines)))
      end
  end.

Definition extract_json (stdout : list N) : ExtractError + list N :=
  extract_json_lines (split_lines stdout).

(** Opening minus closing braces of a text. *)
Fixpoint depth (text : list N) : Z :=
  match text with
  | [] => 0
  | c :: rest =>
      (if (c =? open_brace)%N then 1
       else if (c =? close_brace)%N then -1 else 0) + depth rest
  end.

(** Properly nested braces: as many closing as opening ones, and at no
    point more closing than opening ones. *)
Definition nested (text : list N) : Prop :=
  depth text = 0 ∧ ∀ k, 0 <= depth (take k text).

(** An ASCII string as text. *)
Definition to_text (s : string) : list N :=
  N_of_ascii <$> String.list_ascii_of_string s.

(** ** The item generator of [utils/item_generator.py] *)

(** An item dictionary: [{"id", "type", "width", "height", "shape",
    "price"}]. *)
Record ItemSpec := mkItemSpec {
  spec_id : Z;
  spec_type : string;
  spec_width : Z;
  spec_height : Z;
  spec_shape : string;
  spec_price : Z
}.

(** One [for i in range(count)] loop of [generate_full_230_items] on
    the pair of [items] and [item_id_counter]. *)
Fixpoint append_kind (count : nat) (type : string) (w h : Z) (shape : string)
    (price : Z) (state : list ItemSpec * Z) : list ItemSpec * Z :=
  match count with
  | O => state
  | S count' =>
      let '(items, item_id_counter) := state in
      append_kind count' type w h shape price
        ((items ++ [mkItemSpec item_id_counter type w h shape price])%list,
         item_id_counter + 1)
  end.

(** [generate_full_230_items]. *)
Definition generate_full_230_items : list ItemSpec :=
  let state := ([], 0) in
  let state := append_kind 15 "Rectangle A" 50 50 "RECTANGLE" 100 state in
  let state := append_kind 25 "Rectangle B" 35 45 "RECTANGLE" 150 state in
  let state := append_kind 40 "Rectangle C" 25 30 "RECTANGLE" 70 state in
  let state := append_kind 60 "Rectangle D" 30 40 "RECTANGLE" 300 state in
  let state := append_kind 30 "Triangle Small" 30 30 "TRIANGLE" 120 state in
  let state := append_kind 20 "Triangle Large" 45 45 "TRIANGLE" 180 state in
  let state := append_kind 25 "Circle Small" 30 30 "CIRCLE" 90 state in
  let state := append_kind 15 "Circle Medium" 40 40 "CIRCLE" 200 state in
  state.1.

(** [generate_standard_bins]: id, width, height. *)
Definition generate_standard_bins : list (Z * Z * Z) :=
  [(0, 220, 220); (1, 180, 200); (2, 200, 180); (3, 160, 160)].

(** [item_counts[item_type] = item_counts.get(item_type, 0) + 1] on a
    dictionary kept as the list of its entries in insertion order. *)
Fixpoint bump (item_type : string) (item_counts : list (string * Z))
  : list (string * Z) :=
  match item_counts with
  | [] => [(item_type, 0 + 1)]
  | (key, count) :: rest =>
      if decide (key = item_type) then (key, count + 1) :: rest
      else (key, count) :: bump item_type rest
  end.

(** The loop of [print_item_distribution]: the table it prints, in
    printing order, and [total_value]. *)
Definition item_distribution (items : list ItemSpec)
  : list (string * Z) * Z :=
  fold_left (λ '(item_counts, total_value) item,
               (bump (spec_type item) item_counts,
                total_value + spec_price item))
            items ([], 0).

(** [item_counts.get(item_type, 0)]. *)
Fixpoint tally (item_type : string) (item_counts : list (string * Z)) : Z :=
  match item_counts with
  | [] => 0
  | (key, count) :: rest =>
      if decide (key = item_type) then count else tally item_type rest
  end.

(** ** Drawing *)

(** The calls [draw_bins] makes on the canvas, in order.  Fonts, anchors
    and text colours are fixed at each call site and left out. *)
Inductive CanvasCall :=
| DeleteAll
| CreateRectangle (x1 y1 x2 y2 : Q) (fill outline : string) (line_width : Z)
| CreateOval (x1 y1 x2 y2 : Q) (fill outline : string) (line_width : Z)
| CreatePolygon (points : list Q) (fill outline : string) (line_width : Z)
| CreateText (tx ty : Q) (text : string)
| ConfigureScrollregion.

(** [self.colors]. *)
Definition colors : gmap string string :=
  list_to_map
    [("Rectangle A", "#FF6347"); ("Rectangle B", "#6495ED");
     ("Rectangle C", "#90EE90"); ("Rectangle D", "#FFA500");
     ("Triangle Small", "#9370DB"); ("Triangle Large", "#FFB6C1");
     ("Circle Small", "#FFD700"); ("Circle Medium", "#40E0D0")].

(** Python's [a // b] on numbers, as a number. *)
Definition floor_div (a b : Q) : Q := inject_Z (Qfloor (a / b)).

(** Python's [min(a, b)]. *)
Definition py_min (a b : Q) : Q := if Qgtb a b then b else a.

(** [draw_item]. *)
Definition draw_item (item : PlacedItem) (bin_x_offset bin_y_offset scale : Q)
  : list CanvasCall :=
  let x1 := (bin_x_offset + x item * scale)%Q in
  let y1 := (bin_y_offset + y item * scale)%Q in
  let x2 := (x1 + width item * scale)%Q in
  let y2 := (y1 + height item * scale)%Q in
  let color := default "gray" (colors !! item_type item) in
  let body :=
    if decide (shape item = "RECTANGLE")
    then [CreateRectangle x1 y1 x2 y2 color "black" 1]
    else if decide (shape item = "CIRCLE")
    then let diameter := (py_min (width item) (height item) * scale)%Q in
         [CreateOval x1 y1 (x1 + diameter) (y1 + diameter) color "black" 1]
    else if decide (shape item = "TRIANGLE")
    then [CreatePolygon [x1; y2; x2; y2; (x1 + floor_div (x2 - x1) 2)%Q; y1]
                        color "black" 1]
    else [] in
  let center_x := floor_div (x1 + x2) 2 in
  let center_y := floor_div (y1 + y2) 2 in
  (body ++ [CreateText center_x center_y (pretty (item_id item))])%list.

Definition scale : Q := 2.
Definition padding : Q := 20.
Definition bin_spacing : Q := 20.

(** One iteration of the loop of [draw_bins], entered with [x_offset]:
    the boundary, the label, then the items. *)
Definition draw_bin (x_offset : Q) (bin : Z) (bin_data : BinData)
  : list CanvasCall :=
  let x1 := x_offset in
  let y1 := padding in
  let x2 := (x1 + bin_width bin_data * scale)%Q in
  let y2 := (y1 + bin_height bin_data * scale)%Q in
  (CreateRectangle x1 y1 x2 y2 "lightgray" "black" 2
   :: CreateText (x1 + 5) (y1 + 5) ("Bin " +:+ pretty bin)
   :: mjoin ((λ item, draw_item item x_offset padding scale)
               <$> bin_items bin_data))%list.

(** The loop of [draw_bins] over [self.bins.items()], entered with
    [x_offset]. *)
Fixpoint draw_bins_from (x_offset : Q) (entries : list (Z * BinData))
  : list CanvasCall :=
  match entries with
  | [] => []
  | (bin, bin_data) :: rest =>
      (draw_bin x_offset bin bin_data
       ++ draw_bins_from (x_offset + bin_width bin_data * scale + bin_spacing)%Q
                         rest)%list
  end.

(** [draw_bins], on the entries of [self.bins] in dictionary order. *)
Definition draw_bins (entries : list (Z * BinData)) : list CanvasCall :=
  (DeleteAll :: draw_bins_from padding entries ++ [ConfigureScrollregion])%list.

(** The horizontal extent of the bin boundaries among some canvas
    calls: the rectangles filled light gray. *)
Definition frames (calls : list CanvasCall) : list (Q * Q) :=
  omap (λ call,
          match call with
          | CreateRectangle x1 _ x2 _ fill _ _ =>
              if decide (fill = "lightgray") then Some (x1, x2) else None
          | _ => None
          end) calls.

(** The x and y coordinates a call draws at (text positions aside). *)
Fixpoint split_points (points : list Q) : list Q * list Q :=
  match points with
  | px :: py :: rest =>
      let '(xs, ys) := split_points rest in (px :: xs, py :: ys)
  | _ => ([], [])
  end.

Definition drawn_at (call : CanvasCall) : list Q * list Q :=
  match call with
  | CreateRectangle x1 y1 x2 y2 _ _ _ => ([x1; x2], [y1; y2])
  | CreateOval x1 y1 x2 y2 _ _ _ => ([x1; x2], [y1; y2])
  | CreatePolygon points _ _ _ => split_points points
  | _ => ([], [])
  end.

(** All coordinates of a call lie within the boundary that [draw_bin]
    draws for the bin at [x_offset]. *)
Definition inside_frame (x_offset : Q) (bin_data : BinData)
    (call : CanvasCall) : Prop :=
  Forall (λ px, x_offset <= px ∧ px <= x_offset + bin_width bin_data * 2)%Q
         (drawn_at call).1
  ∧ Forall (λ py, 20 <= py ∧ py <= 20 + bin_height bin_data * 2)%Q
           (drawn_at call).2.

(** ** Comparisons *)

Lemma Qgtb_true a b : Qgtb a b = true ↔ (b < a)%Q.
Proof.
  unfold Qgtb. rewrite negb_true_iff, <- not_true_iff_false, Qle_bool_iff.
  split; [apply Qnot_le_lt | apply Qlt_not_le].
Qed.

Lemma Qgtb_false a b : Qgtb a b = false ↔ (a <= b)%Q.
Proof.
  unfold Qgtb. rewrite negb_false_iff. apply Qle_bool_iff.
Qed.

Lemma exceeds_bin_false bin_data item :
  exceeds_bin bin_data item = false ↔ within_far_edges bin_data item.
Proof.
  unfold exceeds_bin, within_far_edges.
  rewrite orb_false_iff, !Qgtb_false. done.
Qed.

Lemma exceeds_bin_true bin_data item :
  exceeds_bin bin_data item = true ↔
  (bin_width bin_data < x item + width item
   ∨ bin_height bin_data < y item + height item)%Q.
Proof.
  unfold exceeds_bin. rewrite orb_true_iff, !Qgtb_true. done.
Qed.

Lemma items_overlap_true a b : items_overlap a b = true ↔ ¬ separated a b.
Proof.
  unfold items_overlap, separated.
  rewrite negb_true_iff, <- not_true_iff_false, !orb_true_iff, !Qle_bool_iff.
  tauto.
Qed.

Lemma items_overlap_false a b : items_overlap a b = false ↔ separated a b.
Proof.
  unfold items_overlap, separated.
  rewrite negb_false_iff, !orb_true_iff, !Qle_bool_iff. tauto.
Qed.

Lemma items_overlap_sym a b : items_overlap a b = items_overlap b a.
Proof.
  unfold items_overlap. f_equal.
  destruct (Qle_bool (x a + width a) (x b)), (Qle_bool (x b + width b) (x a)),
    (Qle_bool (y a + height a) (y b)), (Qle_bool (y b + height b) (y a)); done.
Qed.

(** ** The overlap loop *)

Lemma scan_overlaps_hit new_item items existing log :
  scan_overlaps new_item items = (Some existing, log) →
  existing ∈ items ∧ items_overlap new_item existing = true.
Proof.
  revert log. induction items as [|e rest IH]; intros log; simpl; [done|].
  destruct (items_overlap new_item e) eqn:He.
  - intros [= <- <-]. split; [left | done].
  - destruct (scan_overlaps new_item rest) as [hit log'].
    intros [= -> <-]. destruct (IH _ eq_refl) as [Hin Hov].
    split; [by right | done].
Qed.

Lemma scan_overlaps_miss new_item items log :
  scan_overlaps new_item items = (None, log) →
  Forall (λ e, items_overlap new_item e = false) items.
Proof.
  revert log. induction items as [|e rest IH]; intros log; simpl; [by constructor|].
  destruct (items_overlap new_item e) eqn:He; [done|].
  destruct (scan_overlaps new_item rest) as [hit log'].
  intros [= -> <-]. constructor; [done | by eapply IH].
Qed.

Lemma scan_overlaps_finds new_item items existing :
  existing ∈ items → items_overlap new_item existing = true →
  ∃ first log, scan_overlaps new_item items = (Some first, log).
Proof.
  intros Hin Hov.
  destruct (scan_overlaps new_item items) as [[first|] log] eqn:Hscan; [eauto|].
  apply scan_overlaps_miss in Hscan.
  rewrite Forall_forall in Hscan. specialize (Hscan _ Hin). congruence.
Qed.

(** The loop compares with a prefix of the bin's items, in their order. *)
Lemma scan_overlaps_log new_item items :
  ∃ k, (scan_overlaps new_item items).2 = CheckOverlap <$> take k items.
Proof.
  induction items as [|e rest [k IH]]; simpl; [by exists 0%nat|].
  destruct (items_overlap new_item e).
  - by exists 1%nat.
  - destruct (scan_overlaps new_item rest) as [hit log]. simpl in *.
    exists (S k). by rewrite IH.
Qed.

(** ** Case analysis of a placement *)

Lemma place_item_sync_case sim item :
  PlaceCase sim item (place_item_sync sim item).
Proof.
  unfold place_item_sync.
  destruct (bins sim !! bin_id item) as [bin_data|] eqn:Hbin;
    [|by constructor].
  destruct (exceeds_bin bin_data item) eqn:Hfit; [by econstructor|].
  destruct (scan_overlaps item (bin_items bin_data)) as [[existing|] log] eqn:Hscan;
    by econstructor.
Qed.

(** ** The returned strings *)

Lemma msg_placed_not_error item bin reason :
  msg_placed item bin ≠ "Error: " +:+ reason.
Proof. done. Qed.

Lemma msg_no_bin_not_no_fit bin item bin' : msg_no_bin bin ≠ msg_no_fit item bin'.
Proof. done. Qed.

Lemma msg_no_bin_not_overlap bin item other : msg_no_bin bin ≠ msg_overlap item other.
Proof. done. Qed.

Lemma msg_no_fit_not_overlap item bin other :
  msg_no_fit item bin ≠ msg_overlap item other.
Proof.
  unfold msg_no_fit, msg_overlap. intros H.
  apply (inj (String.app "Error: Item ")) in H.
  apply (inj (String.app (pretty item))) in H. done.
Qed.

Lemma rejected_no_bin sim bin log : rejected (mkPlaceResult (msg_no_bin bin) sim log).
Proof. by eexists. Qed.

Lemma rejected_no_fit sim item bin log :
  rejected (mkPlaceResult (msg_no_fit item bin) sim log).
Proof. by eexists. Qed.

Lemma rejected_overlap sim item other log :
  rejected (mkPlaceResult (msg_overlap item other) sim log).
Proof. by eexists. Qed.

Lemma placed_not_rejected sim item bin log :
  ¬ rejected (mkPlaceResult (msg_placed item bin) sim log).
Proof. intros [reason H]. by apply msg_placed_not_error in H. Qed.

(** ** Invariants of the reachable states *)

Lemma overlap_free_nil : overlap_free [].
Proof. intros i j a b _ Hi. by rewrite lookup_nil in Hi. Qed.

Lemma overlap_free_snoc items new_item :
  overlap_free items →
  Forall (λ e, items_overlap new_item e = false) items →
  overlap_free (items ++ [new_item]).
Proof.
  intros Hfree Hnew i j a b Hij Hi Hj.
  rewrite Forall_forall in Hnew.
  apply lookup_snoc_Some in Hi as [[Hi Ha]|[Hi <-]];
    apply lookup_snoc_Some in Hj as [[Hj Hb]|[Hj <-]].
  - by eapply Hfree.
  - rewrite items_overlap_sym. apply Hnew. by eapply list_elem_of_lookup_2.
  - apply Hnew. by eapply list_elem_of_lookup_2.
  - lia.
Qed.

(** Whatever holds of the constructor's bins and is kept by an accepted
    append and by clearing holds of every reachable state. *)
Lemma reachable_bins_ind (P : gmap Z BinData → Prop) :
  P init_bins →
  (∀ sim item, P (bins sim) → P (bins (sim_after (place_item_sync sim item)))) →
  (∀ m, P m → P (clear_items <$> m)) →
  ∀ sim, reachable sim → P (bins sim).
Proof.
  intros Hinit Hplace Hclear. unfold reachable.
  apply (rtc_ind_r (λ sim, P (bins sim))); [done|].
  intros sim sim' _ Hstep IH.
  destruct Hstep as [sim command|sim command queue sim' Hqueue Hexec]; [done|].
  destruct command as [item| | |other]; simpl in Hexec.
  - injection Hexec as <-. by apply (Hplace (mkSimulation (bins sim) queue)).
  - unfold reset_simulation_sync in Hexec.
    destruct (update_stats_sync _); [|done].
    injection Hexec as <-. by apply Hclear.
  - destruct (update_stats_sync _); [|done]. by injection Hexec as <-.
  - by injection Hexec as <-.
Qed.

Lemma reachable_no_overlap sim : reachable sim → no_overlap sim.
Proof.
  revert sim. apply (reachable_bins_ind (map_Forall (λ _ bin_data,
    overlap_free (bin_items bin_data)))).
  - intros bin bin_data Hbin. unfold init_bins in Hbin.
    repeat (apply lookup_insert_Some in Hbin as [[_ <-]|[_ Hbin]];
            [apply overlap_free_nil|]).
    by rewrite lookup_empty in Hbin.
  - intros sim item Hinv.
    destruct (place_item_sync_case sim item) as [| | |bin_data log Hbin Hfit Hscan];
      simpl; try done.
    apply map_Forall_insert_2; [|done]. simpl.
    apply overlap_free_snoc; [by eapply Hinv | by eapply scan_overlaps_miss].
  - intros m Hinv. apply map_Forall_fmap.
    intros bin bin_data _. apply overlap_free_nil.
Qed.

Lemma reachable_far_edges sim : reachable sim → far_edges_respected sim.
Proof.
  revert sim. apply (reachable_bins_ind (map_Forall (λ _ bin_data,
    Forall (within_far_edges bin_data) (bin_items bin_data)))).
  - intros bin bin_data Hbin. unfold init_bins in Hbin.
    repeat (apply lookup_insert_Some in Hbin as [[_ <-]|[_ Hbin]];
            [by constructor|]).
    by rewrite lookup_empty in Hbin.
  - intros sim item Hinv.
    destruct (place_item_sync_case sim item) as [| | |bin_data log Hbin Hfit Hscan];
      simpl; try done.
    apply map_Forall_insert_2; [|done]. simpl.
    apply Forall_app. split.
    + by apply (Hinv _ _ Hbin).
    + constructor; [|done]. by apply exceeds_bin_false.
  - intros m Hinv. apply map_Forall_fmap.
    intros bin bin_data _. by constructor.
Qed.

Lemma reachable_dims_fixed sim : reachable sim → dims_fixed sim.
Proof.
  intros Hreach. unfold dims_fixed. revert sim Hreach.
  apply (reachable_bins_ind (λ m, ∀ bin,
    bin_dims <$> m !! bin = bin_dims <$> init_bins !! bin)); [done|..].
  - intros sim item Hinv bin.
    destruct (place_item_sync_case sim item) as [| | |bin_data log Hbin Hfit Hscan];
      simpl; try done.
    destruct (decide (bin_id item = bin)) as [<-|Hne].
    + rewrite lookup_insert_eq, <- Hinv, Hbin. done.
    + by rewrite lookup_insert_ne.
  - intros m Hinv bin. rewrite lookup_fmap, <- Hinv.
    by destruct (m !! bin).
Qed.

Lemma reachable_has_bins sim : reachable sim → bins sim ≠ ∅.
Proof.
  intros Hreach Hempty. pose proof (reachable_dims_fixed sim Hreach 0) as H.
  rewrite Hempty, lookup_empty in H. done.
Qed.

(** With an empty queue, having the loop execute a freshly queued
    command is two moves of the engine. *)
Lemma reachable_execute sim command sim' :
  reachable sim → command_queue sim = [] →
  execute_command sim command = Some sim' → reachable sim'.
Proof.
  intros Hreach Hqueue Hexec. destruct sim as [m queue]. simpl in Hqueue.
  subst queue. eapply rtc_r; [eapply rtc_r; [exact Hreach|]|].
  - apply (step_put _ command).
  - by eapply (step_execute _ command []).
Qed.


Lemma reachable_sim_A : reachable sim_A.
Proof.
  by apply (reachable_execute init_simulation (CmdPlaceItem item_A));
    [apply rtc_refl|..].
Qed.

(** ** Tracing the checks of a placement *)

(** A failing bounds comparison ends the call before the overlap loop. *)
Lemma far_edge_failure_short_circuits sim item bin_data :
  bins sim !! bin_id item = Some bin_data →
  exceeds_bin bin_data item = true →
  place_item_sync sim item
  = mkPlaceResult (msg_no_fit (item_id item) (bin_id item)) sim
                  [CheckBin; CheckFit].
Proof.
  intros Hbin Hfit. unfold place_item_sync. by rewrite Hbin, Hfit.
Qed.

Lemma checks_shape sim item :
  checks (place_item_sync sim item) = [CheckBin]
  ∨ ∃ bin_data k,
      bins sim !! bin_id item = Some bin_data
      ∧ checks (place_item_sync sim item)
        = CheckBin :: CheckFit :: (CheckOverlap <$> take k (bin_items bin_data)).
Proof.
  destruct (place_item_sync_case sim item)
    as [|bin_data Hbin|bin_data existing log Hbin _ Hscan
        |bin_data log Hbin _ Hscan]; simpl.
  - by left.
  - right. by exists bin_data, 0%nat.
  - right. destruct (scan_overlaps_log item (bin_items bin_data)) as [k Hk].
    rewrite Hscan in Hk. simpl in Hk. subst log. by exists bin_data, k.
  - right. destruct (scan_overlaps_log item (bin_items bin_data)) as [k Hk].
    rewrite Hscan in Hk. simpl in Hk. subst log. by exists bin_data, k.
Qed.

(** An overlap with an item of the target bin ends in a rejection,
    whichever check reports it. *)
Lemma overlapping_item_rejected sim item bin_data existing :
  bins sim !! bin_id item = Some bin_data →
  existing ∈ bin_items bin_data →
  items_overlap item existing = true →
  rejected (place_item_sync sim item)
  ∧ sim_after (place_item_sync sim item) = sim.
Proof.
  intros Hbin Hin Hov.
  destruct (place_item_sync_case sim item)
    as [Hnone|bd Hbd|bd e log Hbd _ _|bd log Hbd _ Hscan]; simpl.
  - congruence.
  - split; [apply rejected_no_fit | done].
  - split; [apply rejected_overlap | done].
  - apply scan_overlaps_miss in Hscan. rewrite Forall_forall in Hscan.
    assert (bd = bin_data) as -> by congruence.
    specialize (Hscan _ Hin). congruence.
Qed.

(** ** Claims about placement *)

(** C1 (fit invariant), evaluated where the code departs from it: from
    the constructor's state, the item with id 2 at [(-10, 0)] of size
    [20 x 20] is accepted into bin 0 although [x >= 0] fails, and so is
    an item lying wholly to the left of the bin; both resulting states
    are reachable and hold an item outside its bin's bounds. *)
Theorem fit_check_accepts_negative_origin :
  let bin0 := mkBinData 220 220 [] in
  init_bins !! 0 = Some bin0
  ∧ ¬ within_bin bin0 item_left
  ∧ exceeds_bin bin0 item_left = false
  ∧ message (place_item_sync init_simulation item_left)
    = "Successfully placed item 2 in bin 0"
  ∧ bins (sim_after (place_item_sync init_simulation item_left)) !! 0
    = Some (mkBinData 220 220 [item_left])
  ∧ reachable (sim_after (place_item_sync init_simulation item_left))
  ∧ ¬ within_bin bin0 item_outside
  ∧ message (place_item_sync init_simulation item_outside)
    = "Successfully placed item 1 in bin 0".
Proof.
  repeat split; try reflexivity.
  - intros (H & _). apply Qle_bool_iff in H. done.
  - by apply (reachable_execute init_simulation (CmdPlaceItem item_left));
      [apply rtc_refl|..].
  - intros (H & _). apply Qle_bool_iff in H. done.
Qed.

(** C2 (no-overlap invariant).  [items_overlap] is the negation of the
    four-way separation test; a command whose box overlaps an item of
    its target bin is rejected and changes nothing; the overlap test is
    only ever called with items of the target bin; and in every
    reachable state no two entries of one bin's item list overlap. *)
Theorem no_overlap_invariant :
  (∀ a b,
     items_overlap a b = true ↔
     ¬ (x a + width a <= x b ∨ x b + width b <= x a
        ∨ y a + height a <= y b ∨ y b + height b <= y a)%Q)
  ∧ (∀ sim item bin_data existing,
       bins sim !! bin_id item = Some bin_data →
       existing ∈ bin_items bin_data →
       items_overlap item existing = true →
       rejected (place_item_sync sim item)
       ∧ sim_after (place_item_sync sim item) = sim)
  ∧ (∀ sim item existing,
       CheckOverlap existing ∈ checks (place_item_sync sim item) →
       ∃ bin_data, bins sim !! bin_id item = Some bin_data
                   ∧ existing ∈ bin_items bin_data)
  ∧ (∀ sim, reachable sim →
       ∀ bin bin_data i j a b,
         bins sim !! bin = Some bin_data → i ≠ j →
         bin_items bin_data !! i = Some a →
         bin_items bin_data !! j = Some b →
         items_overlap a b = false).
Proof.
  split; [exact items_overlap_true|]. split; [|split].
  - exact overlapping_item_rejected.
  - intros sim item existing Hin.
    destruct (checks_shape sim item) as [Heq|(bin_data & k & Hbin & Heq)];
      rewrite Heq in Hin.
    + apply list_elem_of_singleton in Hin. done.
    + exists bin_data. split; [done|].
      apply elem_of_cons in Hin as [?|Hin]; [done|].
      apply elem_of_cons in Hin as [?|Hin]; [done|].
      apply list_elem_of_fmap in Hin as (e & [= ->] & Hin).
      apply elem_of_take in Hin as (n & Hn & _).
      by eapply list_elem_of_lookup_2.
  - intros sim Hreach bin bin_data i j a b Hbin Hij Hi Hj.
    by eapply (reachable_no_overlap sim Hreach bin bin_data Hbin i j).
Qed.

Lemma no_overlap_invariant_witness :
  (bins sim_A !! 0 = Some (mkBinData 220 220 [item_A])
   ∧ item_A ∈ [item_A]
   ∧ items_overlap item_B item_A = true
   ∧ reachable sim_A)
  ∧ (rejected (place_item_sync sim_A item_B)
     ∧ sim_after (place_item_sync sim_A item_B) = sim_A
     ∧ ∀ i j a b, i ≠ j → [item_A] !! i = Some a → [item_A] !! j = Some b →
                  items_overlap a b = false).
Proof.
  destruct no_overlap_invariant as (_ & Hreject & _ & Hpairs).
  assert (bins sim_A !! 0 = Some (mkBinData 220 220 [item_A])) as Hbin
    by reflexivity.
  split; [repeat split; [apply list_elem_of_here | apply reachable_sim_A]|].
  destruct (Hreject sim_A item_B _ item_A Hbin) as [Hrej Hsame];
    [apply list_elem_of_here | reflexivity |].
  split; [exact Hrej | split; [exact Hsame|]].
  intros i j a b. exact (Hpairs sim_A reachable_sim_A 0 _ i j a b Hbin).
Defined.

(** C3 (atomicity on rejection).  A call of [place_item_sync] that
    returns an error report leaves the simulation exactly as it was, and
    so does executing the queued command; a missing target bin, a failed
    bounds comparison and an overlap with an item of the bin each end in
    such a report. *)
Theorem rejection_leaves_state_unchanged sim item :
  let result := place_item_sync sim item in
  (rejected result →
     sim_after result = sim
     ∧ execute_command sim (CmdPlaceItem item) = Some sim)
  ∧ (bins sim !! bin_id item = None → rejected result)
  ∧ (∀ bin_data, bins sim !! bin_id item = Some bin_data →
                 exceeds_bin bin_data item = true → rejected result)
  ∧ (∀ bin_data existing,
       bins sim !! bin_id item = Some bin_data →
       existing ∈ bin_items bin_data →
       items_overlap item existing = true → rejected result).
Proof.
  simpl. split; [|split; [|split]].
  - intros Hrej. simpl.
    destruct (place_item_sync_case sim item); simpl; try done.
    by apply placed_not_rejected in Hrej.
  - intros Hnone. unfold place_item_sync. rewrite Hnone. apply rejected_no_bin.
  - intros bin_data Hbin Hfit.
    rewrite (far_edge_failure_short_circuits _ _ _ Hbin Hfit).
    apply rejected_no_fit.
  - intros bin_data existing Hbin Hin Hov.
    by destruct (overlapping_item_rejected sim item bin_data existing).
Qed.

Lemma rejection_leaves_state_unchanged_witness :
  bins init_simulation !! bin_id item_bin99 = None
  ∧ rejected (place_item_sync init_simulation item_bin99)
  ∧ sim_after (place_item_sync init_simulation item_bin99) = init_simulation
  ∧ execute_command init_simulation (CmdPlaceItem item_bin99)
    = Some init_simulation.
Proof.
  destruct (rejection_leaves_state_unchanged init_simulation item_bin99)
    as (Hsame & Hmissing & _).
  assert (bins init_simulation !! bin_id item_bin99 = None) as Hnone
    by reflexivity.
  split; [exact Hnone|]. split; [exact (Hmissing Hnone)|].
  exact (Hsame (Hmissing Hnone)).
Defined.

(** C5 (fit precedes overlap), evaluated where the code departs from
    it.  With item 1 at [(0,0,50,50)] in bin 0, the item with id 2 at
    [(-10, 0)] of size [20 x 20] is out of the bin's bounds, yet the
    bounds comparison lets it through to the overlap loop and the call
    reports an overlap; an item lying wholly outside the bin is not
    rejected at all.  Same missing lower-bound test as in C1. *)
Theorem out_of_bounds_item_reported_as_overlap :
  let bin0 := mkBinData 220 220 [item_A] in
  bins sim_A !! 0 = Some bin0
  ∧ ¬ within_bin bin0 item_left
  ∧ message (place_item_sync sim_A item_left)
    = "Error: Item 2 overlaps with existing item 1"
  ∧ checks (place_item_sync sim_A item_left)
    = [CheckBin; CheckFit; CheckOverlap item_A]
  ∧ ¬ within_bin (mkBinData 220 220 []) item_outside
  ∧ ¬ rejected (place_item_sync init_simulation item_outside).
Proof.
  repeat split; try reflexivity.
  - intros (H & _). apply Qle_bool_iff in H. done.
  - intros (H & _). apply Qle_bool_iff in H. done.
  - apply placed_not_rejected.
Qed.

(** C6 as stated fails: the rejection for the unknown bin 99 returns
    none of the three contract strings. *)
Lemma contract_strings_not_returned :
  rejected (place_item_sync init_simulation item_bin99)
  ∧ message (place_item_sync init_simulation item_bin99)
    = "Error: Bin 99 does not exist"
  ∧ ¬ (message (place_item_sync init_simulation item_bin99)
         = contract_no_bin 99
       ∨ message (place_item_sync init_simulation item_bin99)
         = contract_no_fit 1 99
       ∨ ∃ other, message (place_item_sync init_simulation item_bin99)
                  = contract_overlap 1 other).
Proof.
  split; [apply rejected_no_bin|]. split; [reflexivity|].
  intros [H|[H|[other H]]]; discriminate H.
Qed.

(** C6, amended.  Every rejected call returns exactly one of
    ["Error: Bin <id> does not exist"],
    ["Error: Item <id> does not fit in bin <bin_id>"] and
    ["Error: Item <id> overlaps with existing item <other_id>"], under
    the matching condition, with the ids in decimal; the three strings
    are pairwise different. *)
Theorem rejection_reason_strings sim item :
  let result := place_item_sync sim item in
  (rejected result →
     (bins sim !! bin_id item = None
      ∧ message result
        = "Error: Bin " +:+ pretty (bin_id item) +:+ " does not exist")
     ∨ (∃ bin_data,
          bins sim !! bin_id item = Some bin_data
          ∧ exceeds_bin bin_data item = true
          ∧ message result
            = "Error: Item " +:+ pretty (item_id item)
              +:+ " does not fit in bin " +:+ pretty (bin_id item))
     ∨ (∃ bin_data existing,
          bins sim !! bin_id item = Some bin_data
          ∧ exceeds_bin bin_data item = false
          ∧ existing ∈ bin_items bin_data
          ∧ items_overlap item existing = true
          ∧ message result
            = "Error: Item " +:+ pretty (item_id item)
              +:+ " overlaps with existing item "
              +:+ pretty (item_id existing)))
  ∧ (∀ other,
       msg_no_bin (bin_id item) ≠ msg_no_fit (item_id item) (bin_id item)
       ∧ msg_no_bin (bin_id item) ≠ msg_overlap (item_id item) other
       ∧ msg_no_fit (item_id item) (bin_id item)
         ≠ msg_overlap (item_id item) other).
Proof.
  simpl. split.
  - intros Hrej.
    destruct (place_item_sync_case sim item)
      as [Hnone|bd Hbd Hfit|bd e log Hbd Hfit Hscan|bd log Hbd _ _]; simpl.
    + by left.
    + right; left. by exists bd.
    + right; right. exists bd, e.
      by destruct (scan_overlaps_hit _ _ _ _ Hscan).
    + by apply placed_not_rejected in Hrej.
  - intros other. split; [|split].
    + apply msg_no_bin_not_no_fit.
    + apply msg_no_bin_not_overlap.
    + apply msg_no_fit_not_overlap.
Qed.

Lemma rejection_reason_strings_witness :
  rejected (place_item_sync sim_A item_B)
  ∧ message (place_item_sync sim_A item_B)
    = "Error: Item 2 overlaps with existing item 1".
Proof.
  assert (rejected (place_item_sync sim_A item_B)) as Hrej
    by apply rejected_overlap.
  split; [exact Hrej|].
  destruct (rejection_reason_strings sim_A item_B) as [Hreason _].
  assert (bins sim_A !! bin_id item_B = Some (mkBinData 220 220 [item_A]))
    as Hbin by reflexivity.
  destruct (Hreason Hrej)
    as [[Hnone _]|[(bd & Hbd & Hfit & _)|(bd & e & Hbd & _ & Hin & _ & Hmsg)]].
  - rewrite Hbin in Hnone. discriminate Hnone.
  - rewrite Hbin in Hbd. injection Hbd as <-. discriminate Hfit.
  - rewrite Hbin in Hbd. injection Hbd as <-.
    apply list_elem_of_singleton in Hin. subst e. exact Hmsg.
Defined.

(** C10 (bin existence precedes the geometric checks).  When the target
    bin is not configured the call returns the bin-does-not-exist report
    without evaluating the bounds comparison or any overlap test,
    whatever the item's geometry; and every call evaluates its checks in
    the order bin lookup, bounds comparison, overlap tests along the
    bin's item list. *)
Theorem bin_lookup_precedes_geometry sim item :
  (bins sim !! bin_id item = None →
     place_item_sync sim item
     = mkPlaceResult (msg_no_bin (bin_id item)) sim [CheckBin])
  ∧ (checks (place_item_sync sim item) = [CheckBin]
     ∨ ∃ bin_data k,
         bins sim !! bin_id item = Some bin_data
         ∧ checks (place_item_sync sim item)
           = CheckBin :: CheckFit
             :: (CheckOverlap <$> take k (bin_items bin_data))).
Proof.
  split; [|apply checks_shape].
  intros Hnone. unfold place_item_sync. by rewrite Hnone.
Qed.

Lemma bin_lookup_precedes_geometry_witness :
  bins sim_A !! bin_id (rect 7 99 300 300 400 400) = None
  ∧ message (place_item_sync sim_A (rect 7 99 300 300 400 400))
    = "Error: Bin 99 does not exist"
  ∧ checks (place_item_sync sim_A (rect 7 99 300 300 400 400)) = [CheckBin].
Proof.
  destruct (bin_lookup_precedes_geometry sim_A (rect 7 99 300 300 400 400))
    as [Hmissing _].
  assert (bins sim_A !! bin_id (rect 7 99 300 300 400 400) = None) as Hnone
    by reflexivity.
  split; [exact Hnone|]. rewrite (Hmissing Hnone). split; reflexivity.
Defined.

(** C4 (outcome observability), evaluated where the code departs from
    it.  [place_item] answers with its "Placed item ..." string before
    the command is looked at, whatever the state; for the command into
    the unknown bin 99 the queued command is then rejected by
    [place_item_sync], its report is dropped by [execute_command], and
    nothing was placed. *)
Theorem place_item_hides_rejection (format_number : Q → string) :
  let '(answer, queued) := place_item format_number init_simulation item_bin99 in
  answer = "Placed item 1 in bin 99 at (" +:+ format_number 0%Q +:+ ", "
           +:+ format_number 0%Q +:+ ")"
  ∧ command_queue queued = [CmdPlaceItem item_bin99]
  ∧ message (place_item_sync (mkSimulation (bins queued) []) item_bin99)
    = "Error: Bin 99 does not exist"
  ∧ step queued init_simulation
  ∧ (∀ sim sim' item,
       (place_item format_number sim item).1
       = (place_item format_number sim' item).1).
Proof.
  simpl. repeat split.
  by apply (step_execute _ (CmdPlaceItem item_bin99) []).
Qed.

(** ** The snapshot loop *)

Lemma Qsum_perm l l' : l ≡ₚ l' → (Qsum l == Qsum l')%Q.
Proof.
  induction 1 as [|a l l' _ IH|a b l|l l' l'' _ IH1 _ IH2]; simpl.
  - reflexivity.
  - by rewrite IH.
  - rewrite !Qplus_assoc, (Qplus_comm b a). reflexivity.
  - by rewrite IH1.
Qed.

Lemma Qsum_zero l : Forall (λ q, q == 0)%Q l → (Qsum l == 0)%Q.
Proof.
  induction 1 as [|q l Hq _ IH]; simpl; [reflexivity|].
  rewrite Hq, IH. reflexivity.
Qed.

Lemma used_area_from acc items :
  (fold_left (λ acc item, acc + width item * height item) items acc
   == acc + area_sum items)%Q.
Proof.
  revert acc. induction items as [|item rest IH]; intros acc; simpl.
  - unfold area_sum. simpl. by rewrite Qplus_0_r.
  - rewrite IH. unfold area_sum. simpl. by rewrite Qplus_assoc.
Qed.

Lemma used_area_sum items : (used_area items == area_sum items)%Q.
Proof. unfold used_area. rewrite used_area_from. apply Qplus_0_l. Qed.

Lemma snapshot_fold_bins (entries : list (Z * BinData)) state bin :
  NoDup entries.*1 →
  state_bins (fold_left snapshot_step entries state) !! bin
  = match (list_to_map entries : gmap Z BinData) !! bin with
    | Some bin_data => Some (bin_view bin_data)
    | None => state_bins state !! bin
    end.
Proof.
  revert state. induction entries as [|[k bin_data] rest IH]; intros state Hnd.
  - simpl. by rewrite lookup_empty.
  - apply NoDup_cons in Hnd as [Hk Hnd]. simpl. rewrite (IH _ Hnd). simpl.
    destruct (decide (k = bin)) as [->|Hne].
    + rewrite lookup_insert_eq.
      rewrite (not_elem_of_list_to_map_1 (M:=gmap Z) _ _ Hk).
      by rewrite lookup_insert_eq.
    + rewrite (lookup_insert_ne (list_to_map rest) _ _ _ Hne).
      by rewrite lookup_insert_ne.
Qed.

Lemma snapshot_loop_bins sim :
  state_bins (snapshot_loop sim) = bin_view <$> bins sim.
Proof.
  apply map_eq. intros bin. unfold snapshot_loop.
  rewrite snapshot_fold_bins by apply NoDup_fst_map_to_list.
  rewrite list_to_map_to_list, lookup_fmap. simpl.
  destruct (bins sim !! bin); [done|]. simpl. apply lookup_empty.
Qed.

Lemma snapshot_fold_utilization (entries : list (Z * BinData)) state :
  (total_utilization (fold_left snapshot_step entries state)
   == total_utilization state + Qsum (bin_utilization <$> entries.*2))%Q.
Proof.
  revert state. induction entries as [|[k bin_data] rest IH]; intros state; simpl.
  - by rewrite Qplus_0_r.
  - rewrite IH. simpl. by rewrite Qplus_assoc.
Qed.

Lemma snapshot_fold_items (entries : list (Z * BinData)) state :
  Forall (λ entry, bin_items entry.2 = []) entries →
  total_items (fold_left snapshot_step entries state) = total_items state.
Proof.
  intros Hall. revert state.
  induction Hall as [|[k bin_data] rest Hempty _ IH]; intros state; simpl;
    [done|].
  rewrite IH. simpl in *. rewrite Hempty. simpl. lia.
Qed.

Lemma get_simulation_state_defined sim :
  is_Some (get_simulation_state sim) ↔ bins sim ≠ ∅.
Proof.
  unfold get_simulation_state. rewrite <- map_size_non_empty_iff.
  destruct (decide (size (bins sim) = 0%nat)) as [Hz|Hnz].
  - split; [by intros [? ?]|done].
  - split; [done | by eexists].
Qed.

Lemma get_simulation_state_Some sim state :
  get_simulation_state sim = Some state →
  state_bins state = bin_view <$> bins sim
  ∧ total_items state = total_items (snapshot_loop sim)
  ∧ total_utilization state
    = (total_utilization (snapshot_loop sim)
       / inject_Z (Z.of_nat (size (bins sim))))%Q.
Proof.
  unfold get_simulation_state.
  destruct (decide (size (bins sim) = 0%nat)); [done|].
  intros [= <-]. simpl. by rewrite snapshot_loop_bins.
Qed.

Lemma snapshot_loop_utilization sim :
  (total_utilization (snapshot_loop sim)
   == Qsum (utilization <$> (map_to_list (bin_view <$> bins sim)).*2))%Q.
Proof.
  unfold snapshot_loop. rewrite snapshot_fold_utilization. simpl.
  rewrite Qplus_0_l. apply Qsum_perm.
  rewrite map_to_list_fmap, <- !list_fmap_compose.
  match goal with |- ?l ≡ₚ ?l' => assert (l = l') as ->; [|done] end.
  apply list_fmap_ext. by intros _ [k bin_data] _.
Qed.

Lemma bin_utilization_positive bin_data :
  (0 < bin_width bin_data * bin_height bin_data)%Q →
  (bin_utilization bin_data
   == area_sum (bin_items bin_data)
      / (bin_width bin_data * bin_height bin_data) * 100)%Q.
Proof.
  intros Hpos. unfold bin_utilization.
  apply Qgtb_true in Hpos. rewrite Hpos. by rewrite used_area_sum.
Qed.

Lemma bin_utilization_zero_area bin_data :
  (bin_width bin_data * bin_height bin_data == 0)%Q →
  bin_utilization bin_data = 0%Q.
Proof.
  intros Hzero. unfold bin_utilization.
  assert (Qgtb (bin_width bin_data * bin_height bin_data) 0 = false) as ->; [|done].
  apply Qgtb_false. rewrite Hzero. apply Qle_refl.
Qed.

(** ** Claims about the snapshot *)

(** The constructor's bins have positive area, and so has every bin of
    a reachable state. *)
Lemma reachable_positive_area sim bin bin_data :
  reachable sim → bins sim !! bin = Some bin_data →
  (0 < bin_width bin_data * bin_height bin_data)%Q.
Proof.
  intros Hreach Hbin. pose proof (reachable_dims_fixed sim Hreach bin) as Hdims.
  rewrite Hbin in Hdims. simpl in Hdims.
  destruct (init_bins !! bin) as [bin0|] eqn:Hinit; [|done].
  injection Hdims as Hw Hh. rewrite Hw, Hh. clear Hw Hh Hbin.
  unfold init_bins in Hinit.
  repeat (apply lookup_insert_Some in Hinit as [[_ <-]|[_ Hinit]]; [done|]).
  by rewrite lookup_empty in Hinit.
Qed.

(** C7 (snapshot statistics).  [get_simulation_state] returns a state
    exactly when some bin is configured.  The state it returns lists the
    configured bins; a bin of positive area is reported with the sum of
    its items' [width * height] over [bin width * bin height], times
    100, whatever the items' shapes; a bin of zero area is reported with
    0; and the overall figure is the plain mean of the reported per-bin
    figures, their sum divided by the number of bins.  In a reachable
    state every bin has positive area, so each is reported with the
    quotient. *)
Theorem snapshot_statistics sim :
  (is_Some (get_simulation_state sim) ↔ bins sim ≠ ∅)
  ∧ (∀ state, get_simulation_state sim = Some state →
       dom (state_bins state) = dom (bins sim)
       ∧ (∀ bin bin_data, bins sim !! bin = Some bin_data →
            ∃ view,
              state_bins state !! bin = Some view
              ∧ ((0 < bin_width bin_data * bin_height bin_data)%Q →
                 (utilization view
                  == area_sum (bin_items bin_data)
                     / (bin_width bin_data * bin_height bin_data) * 100)%Q)
              ∧ ((bin_width bin_data * bin_height bin_data == 0)%Q →
                 (utilization view == 0)%Q))
       ∧ (total_utilization state
          == Qsum (utilization <$> (map_to_list (state_bins state)).*2)
             / inject_Z (Z.of_nat (size (bins sim))))%Q
       ∧ (total_utilization state
          == Qmean (utilization <$> (map_to_list (state_bins state)).*2))%Q
       ∧ (reachable sim →
          ∀ bin bin_data view,
            bins sim !! bin = Some bin_data →
            state_bins state !! bin = Some view →
            (utilization view
             == area_sum (bin_items bin_data)
                / (bin_width bin_data * bin_height bin_data) * 100)%Q)).
Proof.
  split; [apply get_simulation_state_defined|].
  intros state Hstate.
  destruct (get_simulation_state_Some _ _ Hstate) as (Hbins & _ & Htotal).
  assert (total_utilization state
          == Qsum (utilization <$> (map_to_list (state_bins state)).*2)
             / inject_Z (Z.of_nat (size (bins sim))))%Q as Hmean.
  { rewrite Htotal, Hbins, snapshot_loop_utilization. reflexivity. }
  split; [by rewrite Hbins, dom_fmap_L|]. split; [|split; [exact Hmean|]].
  - intros bin bin_data Hbin. exists (bin_view bin_data).
    split; [by rewrite Hbins, lookup_fmap, Hbin|]. simpl. split.
    + apply bin_utilization_positive.
    + intros Hzero. by rewrite bin_utilization_zero_area.
  - split.
    + rewrite Hmean. unfold Qmean.
      rewrite !length_fmap, length_map_to_list, Hbins, map_size_fmap.
      reflexivity.
    + intros Hreach bin bin_data view Hbin Hview.
      rewrite Hbins, lookup_fmap, Hbin in Hview. injection Hview as <-.
      simpl. apply bin_utilization_positive.
      by eapply reachable_positive_area.
Qed.

Lemma snapshot_statistics_witness :
  bins sim_ABC ≠ ∅
  ∧ ∃ state view,
      get_simulation_state sim_ABC = Some state
      ∧ state_bins state !! 0 = Some view
      ∧ (utilization view == (2500 + 2500) / (220 * 220) * 100)%Q
      ∧ (total_utilization state
         == Qmean (utilization <$> (map_to_list (state_bins state)).*2))%Q.
Proof.
  destruct (snapshot_statistics sim_ABC) as [Hdefined Hstats].
  assert (bins sim_ABC ≠ ∅) as Hbins.
  { intros Hempty. apply (f_equal (λ m, m !! 0)) in Hempty. discriminate Hempty. }
  split; [exact Hbins|].
  destruct (proj2 Hdefined Hbins) as [state Hstate].
  destruct (Hstats state Hstate) as (_ & Hbin & _ & Hmean & _).
  destruct (Hbin 0 (mkBinData 220 220 [item_A; item_C]) eq_refl)
    as (view & Hview & Hpos & _).
  exists state, view. split; [exact Hstate|]. split; [exact Hview|].
  split; [|exact Hmean].
  rewrite Hpos; [reflexivity | reflexivity].
Defined.

(** ** Reset *)

Lemma clear_items_idemp (m : gmap Z BinData) :
  clear_items <$> (clear_items <$> m) = clear_items <$> m.
Proof. rewrite <- map_fmap_compose. by apply map_fmap_ext. Qed.

Lemma cleared_entries_empty (m : gmap Z BinData) :
  Forall (λ entry, bin_items entry.2 = []) (map_to_list (clear_items <$> m)).
Proof.
  apply Forall_forall. intros [bin bin_data] Hin.
  apply elem_of_map_to_list in Hin. rewrite lookup_fmap in Hin.
  destruct (m !! bin); [|done]. by injection Hin as <-.
Qed.

Lemma empty_bin_utilization bin_data :
  bin_items bin_data = [] → (bin_utilization bin_data == 0)%Q.
Proof.
  intros Hempty. unfold bin_utilization. rewrite Hempty.
  destruct (Qgtb _ _); [|reflexivity].
  unfold used_area, Qdiv. simpl. by rewrite !Qmult_0_l.
Qed.

Lemma reset_simulation_sync_Some sim :
  bins sim ≠ ∅ →
  reset_simulation_sync sim
  = Some (mkSimulation (clear_items <$> bins sim) (command_queue sim)).
Proof.
  intros Hbins. unfold reset_simulation_sync, update_stats_sync.
  destruct (get_simulation_state _) as [state|] eqn:Hstate; [done|].
  assert (is_Some (get_simulation_state
    (mkSimulation (clear_items <$> bins sim) (command_queue sim)))) as [? ?];
    [|congruence].
  apply get_simulation_state_defined. simpl.
  by rewrite <- map_size_non_empty_iff, map_size_fmap, map_size_non_empty_iff.
Qed.

(** After a successful placement the statistics refresh has a bin to
    divide by. *)
Lemma placed_snapshot_defined sim item :
  is_Some (bins sim !! bin_id item) →
  is_Some (get_simulation_state (sim_after (place_item_sync sim item))).
Proof.
  intros [bin_data Hbin]. apply get_simulation_state_defined.
  destruct (place_item_sync_case sim item); simpl;
    try (intros Hempty; rewrite Hempty, lookup_empty in Hbin; done).
  apply insert_non_empty.
Qed.

(** ** Claims about reset and the scenario *)

(** C8 (reset).  In every reachable state [reset_simulation_sync]
    succeeds; afterwards the same bins exist with the same dimensions
    and no items, and the queue is untouched; a second reset returns the
    same state; and the snapshot taken then lists every configured bin,
    each with its dimensions, no item and utilization zero, lists no
    other bin, and reports a total of zero items and zero overall
    utilization. *)
Theorem reset_clears_every_bin sim :
  reachable sim →
  ∃ sim',
    reset_simulation_sync sim = Some sim'
    ∧ dom (bins sim') = dom (bins sim)
    ∧ (∀ bin bin_data, bins sim !! bin = Some bin_data →
         bins sim' !! bin
         = Some (mkBinData (bin_width bin_data) (bin_height bin_data) []))
    ∧ command_queue sim' = command_queue sim
    ∧ reset_simulation_sync sim' = Some sim'
    ∧ ∃ state,
        get_simulation_state sim' = Some state
        ∧ (∀ bin view, state_bins state !! bin = Some view →
                       view_items view = [])
        ∧ total_items state = 0
        ∧ (total_utilization state == 0)%Q
        ∧ dom (state_bins state) = dom (bins sim)
        ∧ (∀ bin bin_data, bins sim !! bin = Some bin_data →
             ∃ view,
               state_bins state !! bin = Some view
               ∧ view_bin_width view = bin_width bin_data
               ∧ view_bin_height view = bin_height bin_data
               ∧ view_items view = []
               ∧ (utilization view == 0)%Q).
Proof.
  intros Hreach. pose proof (reachable_has_bins sim Hreach) as Hbins.
  set (sim' := mkSimulation (clear_items <$> bins sim) (command_queue sim)).
  assert (bins sim' ≠ ∅) as Hbins'.
  { simpl.
    by rewrite <- map_size_non_empty_iff, map_size_fmap, map_size_non_empty_iff. }
  exists sim'. split; [by apply reset_simulation_sync_Some|].
  split; [apply dom_fmap_L|]. split; [|split; [done|split]].
  - intros bin bin_data Hbin. simpl. by rewrite lookup_fmap, Hbin.
  - rewrite (reset_simulation_sync_Some sim' Hbins'). unfold sim'. simpl.
    by rewrite clear_items_idemp.
  - destruct (proj2 (get_simulation_state_defined sim') Hbins')
      as [state Hstate].
    exists state. split; [done|].
    destruct (get_simulation_state_Some _ _ Hstate) as (Hview & Hitems & Htotal).
    split; [|split; [|split; [|split; [|]]]].
    + intros bin view. rewrite Hview. simpl. rewrite !lookup_fmap.
      destruct (bins sim !! bin); [|done]. by intros [= <-].
    + rewrite Hitems. unfold snapshot_loop.
      rewrite snapshot_fold_items; [done | apply cleared_entries_empty].
    + rewrite Htotal. unfold snapshot_loop.
      rewrite snapshot_fold_utilization. simpl.
      rewrite Qsum_zero.
      * unfold Qdiv. by rewrite Qplus_0_l, Qmult_0_l.
      * apply Forall_fmap, Forall_fmap.
        eapply Forall_impl; [apply cleared_entries_empty|].
        intros [bin bin_data] Hempty. by apply empty_bin_utilization.
    + rewrite Hview. simpl. by rewrite !dom_fmap_L.
    + intros bin bin_data Hbin.
      exists (bin_view (clear_items bin_data)).
      split; [rewrite Hview; simpl; by rewrite !lookup_fmap, Hbin|].
      repeat split. by apply empty_bin_utilization.
Qed.

Lemma reset_clears_every_bin_witness :
  reachable sim_A
  ∧ ∃ sim',
      reset_simulation_sync sim_A = Some sim'
      ∧ bins sim' !! 0 = Some (mkBinData 220 220 [])
      ∧ reset_simulation_sync sim' = Some sim'
      ∧ ∃ state view,
          get_simulation_state sim' = Some state
          ∧ state_bins state !! 0 = Some view
          ∧ view_items view = []
          ∧ total_items state = 0.
Proof.
  split; [apply reachable_sim_A|].
  destruct (reset_clears_every_bin sim_A reachable_sim_A)
    as (sim' & Hreset & _ & Hcleared & _ & Hagain & state & Hstate & _
        & Htotal & _ & _ & Hlisted).
  exists sim'. split; [exact Hreset|].
  split; [exact (Hcleared 0 (mkBinData 220 220 [item_A]) eq_refl)|].
  split; [exact Hagain|].
  destruct (Hlisted 0 (mkBinData 220 220 [item_A]) eq_refl)
    as (view & Hview & _ & _ & Hempty & _).
  by exists state, view.
Defined.

(** C9 as stated fails: the second placement does not return the
    string quoted in the scenario, and the utilization reported for bin
    0 after the three placements does not round to 1.03. *)
Lemma scenario_as_stated_fails :
  message (place_item_sync sim_A item_B)
  ≠ "item 2 overlaps with existing item 1"
  ∧ (∀ state view,
       get_simulation_state sim_ABC = Some state →
       state_bins state !! 0 = Some view →
       ¬ (1025 # 1000 <= utilization view ∧ utilization view < 1035 # 1000)%Q).
Proof.
  split; [discriminate|].
  intros state view Hstate Hview [_ Hlt].
  apply get_simulation_state_Some in Hstate as (Hbins & _).
  rewrite Hbins in Hview. injection Hview as <-.
  revert Hlt. apply Qle_not_lt. by apply Qle_bool_iff.
Qed.

(** C9, amended.  From the constructor's state, placing item 1 at
    [(0,0,50,50)] in bin 0 succeeds; placing item 2 at [(25,25,50,50)]
    returns ["Error: Item 2 overlaps with existing item 1"] and changes
    nothing; placing item 3 at [(60,0,50,50)] succeeds; and the snapshot
    then reports for bin 0 the utilization
    [(2500+2500)/(220*220)*100 = 1250/121], about 10.33. *)
Theorem scenario_three_placements :
  message (place_item_sync init_simulation item_A)
  = "Successfully placed item 1 in bin 0"
  ∧ message (place_item_sync sim_A item_B)
    = "Error: Item 2 overlaps with existing item 1"
  ∧ sim_AB = sim_A
  ∧ message (place_item_sync sim_AB item_C)
    = "Successfully placed item 3 in bin 0"
  ∧ bins sim_ABC !! 0 = Some (mkBinData 220 220 [item_A; item_C])
  ∧ ∃ state view,
      get_simulation_state sim_ABC = Some state
      ∧ state_bins state !! 0 = Some view
      ∧ (utilization view == (2500 + 2500) / (220 * 220) * 100)%Q
      ∧ (utilization view == 1250 # 121)%Q
      ∧ (1033 # 100 <= utilization view ∧ utilization view < 1034 # 100)%Q.
Proof.
  repeat (split; [reflexivity|]).
  destruct (proj2 (get_simulation_state_defined sim_ABC)) as [state Hstate].
  { intros Hempty. apply (f_equal (λ m, m !! 0)) in Hempty. discriminate Hempty. }
  exists state, (bin_view (mkBinData 220 220 [item_A; item_C])).
  split; [done|].
  apply get_simulation_state_Some in Hstate as (Hbins & _).
  split; [by rewrite Hbins|].
  split; [reflexivity|]. split; [reflexivity|].
  split; [by apply Qle_bool_iff | reflexivity].
Qed.

(** ** More about placement *)

Lemma scan_overlaps_all_clear new_item items :
  Forall (λ e, items_overlap new_item e = false) items →
  scan_overlaps new_item items = (None, CheckOverlap <$> items).
Proof.
  induction 1 as [|e rest He _ IH]; simpl; [done|]. by rewrite He, IH.
Qed.

Lemma scan_overlaps_first new_item earlier e later :
  Forall (λ e', items_overlap new_item e' = false) earlier →
  items_overlap new_item e = true →
  scan_overlaps new_item (earlier ++ e :: later)
  = (Some e, CheckOverlap <$> (earlier ++ [e])%list).
Proof.
  intros Hclear Hov. induction Hclear as [|e' rest He' _ IH]; simpl.
  - by rewrite Hov.
  - by rewrite He', IH.
Qed.

Lemma place_item_sync_placed sim item bin_data :
  bins sim !! bin_id item = Some bin_data →
  exceeds_bin bin_data item = false →
  Forall (λ e, items_overlap item e = false) (bin_items bin_data) →
  place_item_sync sim item
  = mkPlaceResult (msg_placed (item_id item) (bin_id item))
                  (append_item (bin_id item) bin_data item sim)
                  (CheckBin :: CheckFit :: (CheckOverlap <$> bin_items bin_data)).
Proof.
  intros Hbin Hfit Hclear. unfold place_item_sync.
  by rewrite Hbin, Hfit, (scan_overlaps_all_clear _ _ Hclear).
Qed.

Lemma not_rejected_placed sim item :
  ¬ rejected (place_item_sync sim item) →
  ∃ bin_data log,
    bins sim !! bin_id item = Some bin_data
    ∧ exceeds_bin bin_data item = false
    ∧ scan_overlaps item (bin_items bin_data) = (None, log)
    ∧ place_item_sync sim item
      = mkPlaceResult (msg_placed (item_id item) (bin_id item))
                      (append_item (bin_id item) bin_data item sim)
                      (CheckBin :: CheckFit :: log).
Proof.
  intros Hacc.
  destruct (place_item_sync_case sim item)
    as [|bd|bd e log|bd log Hbd Hfit Hscan].
  - destruct Hacc. apply rejected_no_bin.
  - destruct Hacc. apply rejected_no_fit.
  - destruct Hacc. apply rejected_overlap.
  - by exists bd, log.
Qed.

Lemma same_box_overlap a b e :
  same_box a b → items_overlap a e = items_overlap b e.
Proof.
  intros (_ & Hx & Hy & Hw & Hh). unfold items_overlap.
  by rewrite Hx, Hy, Hw, Hh.
Qed.

Lemma same_box_scan a b items :
  same_box a b → scan_overlaps a items = scan_overlaps b items.
Proof.
  intros Hsame. induction items as [|e rest IH]; simpl; [done|].
  by rewrite (same_box_overlap a b e Hsame), IH.
Qed.

(** X1.  A call of [place_item_sync] returns its success string exactly
    when the target bin exists, the bounds comparison that guards the
    "does not fit" return is false, and [items_overlap] is false for
    every item already in the bin. *)
Theorem placement_accepted_iff sim item :
  message (place_item_sync sim item)
  = "Successfully placed item " +:+ pretty (item_id item) +:+ " in bin "
    +:+ pretty (bin_id item)
  ↔ ∃ bin_data,
      bins sim !! bin_id item = Some bin_data
      ∧ exceeds_bin bin_data item = false
      ∧ ∀ existing, existing ∈ bin_items bin_data →
                    items_overlap item existing = false.
Proof.
  split.
  - intros Hmsg.
    destruct (place_item_sync_case sim item)
      as [|bd|bd e log|bd log Hbd Hfit Hscan]; simpl in Hmsg; try done.
    exists bd. apply scan_overlaps_miss in Hscan.
    rewrite Forall_forall in Hscan. by repeat split.
  - intros (bd & Hbd & Hfit & Hclear).
    rewrite (place_item_sync_placed sim item bd); [done|done|done|].
    by apply Forall_forall.
Qed.

(** X2.  An accepted placement appends the item at the end of the
    target bin's list, keeps that bin's dimensions, and leaves every
    other bin and the command queue as they were. *)
Theorem accepted_placement_appends sim item :
  ¬ rejected (place_item_sync sim item) →
  ∃ bin_data,
    bins sim !! bin_id item = Some bin_data
    ∧ bins (sim_after (place_item_sync sim item)) !! bin_id item
      = Some (mkBinData (bin_width bin_data) (bin_height bin_data)
                        (bin_items bin_data ++ [item]))
    ∧ (∀ other, other ≠ bin_id item →
         bins (sim_after (place_item_sync sim item)) !! other
         = bins sim !! other)
    ∧ command_queue (sim_after (place_item_sync sim item))
      = command_queue sim.
Proof.
  intros Hacc.
  destruct (not_rejected_placed sim item Hacc) as (bd & log & Hbd & _ & _ & ->).
  exists bd. simpl. split; [done|]. split; [apply lookup_insert_eq|].
  split; [|done]. intros other Hne. by apply lookup_insert_ne.
Qed.

Lemma accepted_placement_appends_witness :
  ¬ rejected (place_item_sync sim_A item_C)
  ∧ bins (sim_after (place_item_sync sim_A item_C)) !! 0
    = Some (mkBinData 220 220 [item_A; item_C])
  ∧ bins (sim_after (place_item_sync sim_A item_C)) !! 1 = bins sim_A !! 1.
Proof.
  assert (¬ rejected (place_item_sync sim_A item_C)) as Hacc
    by apply placed_not_rejected.
  split; [exact Hacc|].
  destruct (accepted_placement_appends sim_A item_C Hacc)
    as (bd & Hbd & Hnew & Hother & _).
  assert (bd = mkBinData 220 220 [item_A]) as ->.
  { assert (bins sim_A !! bin_id item_C = Some (mkBinData 220 220 [item_A]))
      as Hbin by reflexivity.
    rewrite Hbin in Hbd. by injection Hbd. }
  split; [exact Hnew|]. by apply Hother.
Defined.

(** X3.  When the box passes the bounds comparison and overlaps some
    item of the bin, the report names the earliest-placed item it
    overlaps, and the loop has compared exactly the items up to that
    one. *)
Theorem overlap_report_names_earliest sim item bin_data earlier existing later :
  bins sim !! bin_id item = Some bin_data →
  exceeds_bin bin_data item = false →
  bin_items bin_data = (earlier ++ existing :: later)%list →
  (∀ e, e ∈ earlier → items_overlap item e = false) →
  items_overlap item existing = true →
  place_item_sync sim item
  = mkPlaceResult
      ("Error: Item " +:+ pretty (item_id item)
       +:+ " overlaps with existing item " +:+ pretty (item_id existing))
      sim
      (CheckBin :: CheckFit :: (CheckOverlap <$> (earlier ++ [existing])%list)).
Proof.
  intros Hbin Hfit Hitems Hclear Hov. unfold place_item_sync.
  rewrite Hbin, Hfit, Hitems.
  rewrite (scan_overlaps_first item earlier existing later); [done| |done].
  by apply Forall_forall.
Qed.

Lemma overlap_report_names_earliest_witness :
  place_item_sync sim_ABC (rect 4 0 70 10 60 60)
  = mkPlaceResult "Error: Item 4 overlaps with existing item 3" sim_ABC
                  [CheckBin; CheckFit; CheckOverlap item_A; CheckOverlap item_C].
Proof.
  apply (overlap_report_names_earliest sim_ABC (rect 4 0 70 10 60 60)
           (mkBinData 220 220 [item_A; item_C]) [item_A] item_C []);
    try reflexivity.
  intros e He. apply list_elem_of_singleton in He. by subst e.
Defined.

(** X4.  [items_overlap] does not depend on the order of its
    arguments. *)
Theorem items_overlap_symmetric a b :
  items_overlap a b = items_overlap b a.
Proof.
  apply items_overlap_sym.
Qed.



(** X7.  Validation never consults the id, the type label or the shape:
    two commands for the same box of the same bin evaluate the same
    checks and are rejected or accepted alike. *)
Theorem validation_ignores_labels sim item item' :
  same_box item item' →
  checks (place_item_sync sim item) = checks (place_item_sync sim item')
  ∧ (rejected (place_item_sync sim item)
     ↔ rejected (place_item_sync sim item')).
Proof.
  intros Hsame. pose proof Hsame as (Hbin & Hx & Hy & Hw & Hh).
  unfold place_item_sync. rewrite <- Hbin.
  destruct (bins sim !! bin_id item) as [bd|]; [|split; [done|]].
  - assert (exceeds_bin bd item' = exceeds_bin bd item) as ->.
    { unfold exceeds_bin. by rewrite Hx, Hy, Hw, Hh. }
    destruct (exceeds_bin bd item).
    + split; [done|]. split; intros _; apply rejected_no_fit.
    + rewrite <- (same_box_scan item item' _ Hsame).
      destruct (scan_overlaps item (bin_items bd)) as [[e|] log].
      * split; [done|]. split; intros _; apply rejected_overlap.
      * split; [done|].
        split; intros Hrej; by apply placed_not_rejected in Hrej.
  - split; intros _; apply rejected_no_bin.
Qed.

Lemma validation_ignores_labels_witness :
  same_box item_B (mkPlacedItem 8 "Triangle Large" 0 25 25 50 50 "TRIANGLE")
  ∧ rejected (place_item_sync sim_A
                (mkPlacedItem 8 "Triangle Large" 0 25 25 50 50 "TRIANGLE")).
Proof.
  assert (same_box item_B
            (mkPlacedItem 8 "Triangle Large" 0 25 25 50 50 "TRIANGLE"))
    as Hsame by (repeat split).
  split; [exact Hsame|].
  apply (validation_ignores_labels sim_A _ _ Hsame). apply rejected_overlap.
Defined.

(** ** Invariants, continued *)

Lemma reachable_owner_recorded sim : reachable sim → owner_recorded (bins sim).
Proof.
  revert sim. apply (reachable_bins_ind owner_recorded).
  - intros bin bin_data Hbin. unfold init_bins in Hbin.
    repeat (apply lookup_insert_Some in Hbin as [[_ <-]|[_ Hbin]];
            [by constructor|]).
    by rewrite lookup_empty in Hbin.
  - intros sim item Hinv.
    destruct (place_item_sync_case sim item) as [| | |bin_data log Hbin Hfit Hscan];
      simpl; try done.
    apply map_Forall_insert_2; [|done]. simpl.
    apply Forall_app. split; [by apply (Hinv _ _ Hbin)|]. by constructor.
  - intros m Hinv. apply map_Forall_fmap.
    intros bin bin_data _. by constructor.
Qed.

(** X8.  In every reachable state the bounds comparison that guards
    the "does not fit" return is false for each stored item against the
    bin that holds it, and the item names that bin as its owner. *)
Theorem stored_items_pass_bounds_guard sim bin bin_data item :
  reachable sim →
  bins sim !! bin = Some bin_data →
  item ∈ bin_items bin_data →
  exceeds_bin bin_data item = false ∧ bin_id item = bin.
Proof.
  intros Hreach Hbin Hin.
  pose proof (reachable_far_edges sim Hreach bin bin_data Hbin) as Hfar.
  pose proof (reachable_owner_recorded sim Hreach bin bin_data Hbin) as Hown.
  rewrite Forall_forall in Hfar, Hown.
  split; [by apply exceeds_bin_false, Hfar | by apply Hown].
Qed.

Lemma stored_items_pass_bounds_guard_witness :
  (reachable sim_ABC
   ∧ bins sim_ABC !! 0 = Some (mkBinData 220 220 [item_A; item_C])
   ∧ item_C ∈ [item_A; item_C])
  ∧ exceeds_bin (mkBinData 220 220 [item_A; item_C]) item_C = false
  ∧ bin_id item_C = 0.
Proof.
  assert (bins sim_ABC !! 0 = Some (mkBinData 220 220 [item_A; item_C]))
    as Hbin by reflexivity.
  assert (item_C ∈ [item_A; item_C]) as Hin by (right; left).
  assert (reachable sim_ABC) as Hreach.
  { apply (reachable_execute sim_A (CmdPlaceItem item_C));
      [apply reachable_sim_A | done | done]. }
  split; [by repeat split|].
  exact (stored_items_pass_bounds_guard sim_ABC 0 _ item_C Hreach Hbin Hin).
Defined.

(** X9.  No command ever adds, removes or resizes a bin: in every
    reachable state the bins are those of the constructor, ids 0 to 3
    with their widths and heights. *)
Theorem bins_never_change sim :
  reachable sim →
  bin_dims <$> bins sim = bin_dims <$> init_bins
  ∧ dom (bins sim) = {[0; 1; 2; 3]}
  ∧ size (bins sim) = 4%nat.
Proof.
  intros Hreach.
  assert (bin_dims <$> bins sim = bin_dims <$> init_bins) as Hdims.
  { apply map_eq. intros bin. rewrite !lookup_fmap.
    apply (reachable_dims_fixed sim Hreach). }
  split; [exact Hdims|]. split.
  - rewrite <- (dom_fmap_L bin_dims), Hdims, dom_fmap_L. unfold init_bins.
    rewrite !dom_insert_L, dom_empty_L. set_solver.
  - rewrite <- (map_size_fmap bin_dims), Hdims, map_size_fmap. done.
Qed.

Lemma bins_never_change_witness :
  reachable sim_A
  ∧ bin_dims <$> bins sim_A !! 2 = Some (200%Q, 180%Q)
  ∧ size (bins sim_A) = 4%nat.
Proof.
  split; [apply reachable_sim_A|].
  destruct (bins_never_change sim_A reachable_sim_A) as (Hdims & _ & Hsize).
  split; [|exact Hsize].
  rewrite <- lookup_fmap, Hdims. reflexivity.
Defined.

(** ** The dispatch loop *)




Lemma place_queue_irrelevant m queue queue' item :
  sim_after (place_item_sync (mkSimulation m queue) item)
  = mkSimulation
      (bins (sim_after (place_item_sync (mkSimulation m queue') item))) queue.
Proof.
  unfold place_item_sync. simpl.
  destruct (m !! bin_id item) as [bd|]; [|done].
  destruct (exceeds_bin bd item); [done|].
  by destruct (scan_overlaps item (bin_items bd)) as [[e|] log].
Qed.





Lemma simulate_steps_queue format_number total i plan sim :
  (simulate_steps format_number total i plan sim).2
  = mkSimulation (bins sim) (command_queue sim ++ (CmdPlaceItem <$> plan)).
Proof.
  revert i sim. induction plan as [|item rest IH]; intros i sim; simpl.
  - rewrite app_nil_r. by destruct sim.
  - specialize (IH (S i) (put (CmdPlaceItem item) sim)).
    destruct (simulate_steps format_number total (S i) rest _) as [printed sim''].
    simpl in *. rewrite IH. simpl. by rewrite <- app_assoc.
Qed.

Lemma drain_cons_place item rest sim :
  drain (CmdPlaceItem item :: rest) sim
  = drain rest (sim_after (place_item_sync (mkSimulation (bins sim) rest) item)).
Proof. done. Qed.

Lemma drain_placements plan sim :
  command_queue sim = CmdPlaceItem <$> plan →
  drain (CmdPlaceItem <$> plan) sim
  = Some (fold_left (λ sim item, sim_after (place_item_sync sim item)) plan
                    (mkSimulation (bins sim) [])).
Proof.
  revert sim. induction plan as [|item rest IH]; intros [m queue] Hqueue.
  - simpl in *. by subst queue.
  - rewrite fmap_cons, drain_cons_place.
    cbn [bins fold_left].
    rewrite (place_queue_irrelevant m (CmdPlaceItem <$> rest) [] item).
    rewrite IH; [|done]. cbn [bins]. do 2 f_equal.
    by rewrite (place_queue_irrelevant m [] [] item) at 2.
Qed.

(** X11.  Commands are applied in the order they were issued: after
    [simulate_placement] has queued a plan on an empty queue, draining
    the queue leaves the state that calling [place_item_sync] on the
    plan's records one after the other would leave. *)
Theorem plan_applied_in_order format_number sim plan :
  command_queue sim = [] →
  process_commands (simulate_placement format_number sim plan).2
  = Some (fold_left (λ sim item, sim_after (place_item_sync sim item))
                    plan sim).
Proof.
  intros Hqueue. unfold simulate_placement, process_commands.
  pose proof (simulate_steps_queue format_number (length plan) 0 plan sim) as H.
  destruct (simulate_steps format_number (length plan) 0 plan sim)
    as [printed sim']. simpl in *. subst sim'. rewrite Hqueue. simpl.
  rewrite drain_placements; [|done]. simpl. do 2 f_equal.
  destruct sim as [m queue]. simpl in *. by subst queue.
Qed.

Lemma plan_applied_in_order_witness :
  command_queue init_simulation = []
  ∧ process_commands
      (simulate_placement (λ _, "0") init_simulation [item_A; item_B; item_C]).2
    = Some sim_ABC.
Proof.
  split; [reflexivity|].
  by rewrite (plan_applied_in_order (λ _, "0") init_simulation).
Defined.

(** ** The plan runner never sees an error *)

Lemma mentions_app c s1 s2 :
  mentions c (s1 +:+ s2) = mentions c s1 || mentions c s2.
Proof.
  induction s1 as [|c' s1 IH]; simpl; [done|]. by rewrite IH, orb_assoc.
Qed.

Lemma prefix_mentions c needle hay :
  String.prefix (String c needle) hay = true → mentions c hay = true.
Proof.
  destruct hay as [|c' hay]; simpl; [done|].
  destruct (Ascii.ascii_dec c c') as [->|Hne]; [|done].
  intros _. by rewrite bool_decide_eq_true_2.
Qed.

Lemma is_substring_mentions c needle hay :
  is_substring (String c needle) hay = true → mentions c hay = true.
Proof.
  induction hay as [|c' hay IH].
  - done.
  - intros H. apply orb_true_iff in H as [H|H].
    + by apply prefix_mentions in H.
    + simpl. rewrite (IH H). apply orb_true_r.
Qed.

Lemma pretty_N_char_not_E n : pretty_N_char n ≠ "E"%char.
Proof. unfold pretty_N_char. by repeat case_match. Qed.

Lemma pretty_N_go_no_E n s :
  mentions "E" s = false → mentions "E" (pretty_N_go n s) = false.
Proof.
  revert s. induction (N.lt_wf_0 n) as [n _ IH]; intros s Hs.
  destruct (decide (0 < n)%N) as [Hpos|Hzero].
  - rewrite pretty_N_go_step by done. apply IH.
    + by apply N.div_lt.
    + simpl. rewrite Hs, orb_false_r.
      apply bool_decide_eq_false_2. intros Heq.
      by apply (pretty_N_char_not_E (n `mod` 10)%N).
  - assert (n = 0%N) as -> by lia. by rewrite pretty_N_go_0.
Qed.

Lemma pretty_N_no_E (n : N) : mentions "E" (pretty n) = false.
Proof.
  unfold pretty, pretty_N. case_decide; [done|]. by apply pretty_N_go_no_E.
Qed.

Lemma pretty_Z_no_E (z : Z) : mentions "E" (pretty z) = false.
Proof.
  destruct z as [|p|p]; [done|..].
  - apply (pretty_N_no_E (N.pos p)).
  - change (pretty (Z.neg p)) with ("-" +:+ pretty (N.pos p)).
    rewrite mentions_app, pretty_N_no_E. done.
Qed.

Lemma place_item_answer_no_E format_number sim item :
  (∀ q, mentions "E" (format_number q) = false) →
  is_substring "Error" (place_item format_number sim item).1 = false.
Proof.
  intros Hfmt. apply not_true_is_false. intros Hsub.
  apply is_substring_mentions in Hsub. revert Hsub. unfold place_item. simpl.
  rewrite !mentions_app, !Hfmt, !pretty_Z_no_E. done.
Qed.

Lemma simulate_steps_printed format_number total i plan sim :
  (∀ q, mentions "E" (format_number q) = false) →
  (simulate_steps format_number total i plan sim).1
  = mjoin (imap (λ j step,
                   [PrintPlacing (S (i + j)) total (item_type step) (bin_id step);
                    PrintSuccess (place_item format_number sim step).1])
                plan).
Proof.
  intros Hfmt. revert i sim.
  induction plan as [|step rest IH]; intros i sim; [done|].
  cbn [simulate_steps].
  pose proof (place_item_answer_no_E format_number sim step Hfmt) as Hno.
  destruct (place_item format_number sim step) as [result sim'] eqn:Hplace.
  simpl in Hno. rewrite Hno. specialize (IH (S i) sim').
  destruct (simulate_steps format_number total (S i) rest sim')
    as [printed sim'']. simpl in IH. subst printed.
  injection Hplace as <- <-.
  rewrite imap_cons. cbn [mjoin list_join app fst]. rewrite Nat.add_0_r.
  do 3 f_equal.
  apply imap_ext. intros j step' _. simpl. by rewrite Nat.add_succ_r.
Qed.

(** X12.  Provided the rendering of a number never contains the letter
    E (as Python's rendering of ints and floats does not),
    [simulate_placement] prints, for every record of the plan, the
    success line with the string [place_item] returned and never the
    failure line, whatever the state and whether or not the command is
    later rejected. *)
Theorem plan_runner_never_reports_failure format_number sim plan :
  (∀ q, mentions "E" (format_number q) = false) →
  (simulate_placement format_number sim plan).1
  = PrintStarting
    :: (mjoin (imap (λ j step,
                       [PrintPlacing (S j) (length plan) (item_type step)
                                     (bin_id step);
                        PrintSuccess (place_item format_number sim step).1])
                    plan)
        ++ [PrintCompleted])%list.
Proof.
  intros Hfmt. unfold simulate_placement.
  pose proof (simulate_steps_printed format_number (length plan) 0 plan sim Hfmt)
    as H.
  destruct (simulate_steps format_number (length plan) 0 plan sim)
    as [printed sim']. simpl in *. by subst printed.
Qed.

Lemma plan_runner_never_reports_failure_witness :
  (∀ q : Q, mentions "E" ((λ _, "0.0") q) = false)
  ∧ (simulate_placement (λ _, "0.0") init_simulation [item_bin99]).1
    = [PrintStarting; PrintPlacing 1 1 "Rectangle A" 99;
       PrintSuccess "Placed item 1 in bin 99 at (0.0, 0.0)"; PrintCompleted]
  ∧ rejected (place_item_sync init_simulation item_bin99).
Proof.
  assert (∀ q : Q, mentions "E" ((λ _, "0.0") q) = false) as Hfmt
    by (intros q; reflexivity).
  split; [exact Hfmt|]. split; [|apply rejected_no_bin].
  by rewrite (plan_runner_never_reports_failure _ init_simulation _ Hfmt).
Defined.

(** ** More about the snapshot *)

Lemma snapshot_fold_count (entries : list (Z * BinData)) state :
  total_items (fold_left snapshot_step entries state)
  = total_items state
    + Z.of_nat (sum_list ((λ entry : Z * BinData, length (bin_items entry.2))
                            <$> entries)).
Proof.
  revert state. induction entries as [|[k bin_data] rest IH]; intros state.
  - simpl. lia.
  - rewrite fmap_cons. cbn [fold_left]. rewrite IH. simpl.
    rewrite Nat2Z.inj_add. lia.
Qed.

Lemma count_items_insert (m : gmap Z BinData) bin bin_data bin_data' :
  m !! bin = Some bin_data →
  (count_items (<[bin := bin_data']> m) + length (bin_items bin_data)
   = count_items m + length (bin_items bin_data'))%nat.
Proof.
  intros Hbin. unfold count_items.
  rewrite <- (insert_delete_eq m bin bin_data') .
  rewrite <- (insert_delete_id m bin bin_data Hbin) at 2.
  rewrite !map_to_list_insert by apply lookup_delete_eq.
  simpl. lia.
Qed.

Lemma snapshot_total_items sim state :
  get_simulation_state sim = Some state →
  total_items state = Z.of_nat (count_items (bins sim)).
Proof.
  intros Hstate.
  destruct (get_simulation_state_Some _ _ Hstate) as (_ & -> & _).
  unfold snapshot_loop. by rewrite snapshot_fold_count.
Qed.

(** X13.  A snapshot lists exactly the configured bins, each with its
    dimensions and its items in order of arrival with their fields
    copied, and its [total_items] is the number of items stored over all
    bins. *)
Theorem snapshot_lists_every_item sim state :
  get_simulation_state sim = Some state →
  (∀ bin,
     state_bins state !! bin
     = (λ bin_data,
          mkBinView (bin_width bin_data) (bin_height bin_data)
                    (item_view <$> bin_items bin_data)
                    (bin_utilization bin_data)) <$> bins sim !! bin)
  ∧ total_items state = Z.of_nat (count_items (bins sim)).
Proof.
  intros Hstate.
  destruct (get_simulation_state_Some _ _ Hstate) as (Hbins & Hitems & _).
  split.
  - intros bin. by rewrite Hbins, lookup_fmap.
  - by apply snapshot_total_items.
Qed.

Lemma snapshot_lists_every_item_witness :
  ∃ state,
    get_simulation_state sim_ABC = Some state
    ∧ view_items <$> state_bins state !! 0
      = Some [item_view item_A; item_view item_C]
    ∧ total_items state = 2.
Proof.
  destruct (proj2 (get_simulation_state_defined sim_ABC)) as [state Hstate].
  { intros Hempty. apply (f_equal (λ m, m !! 0)) in Hempty. discriminate Hempty. }
  exists state. split; [exact Hstate|].
  destruct (snapshot_lists_every_item sim_ABC state Hstate) as [Hbins Hcount].
  split; [by rewrite Hbins | by rewrite Hcount].
Defined.

(** X14.  An accepted placement raises the snapshot's [total_items] by
    exactly one. *)
Theorem accepted_placement_counts_one sim item state state' :
  ¬ rejected (place_item_sync sim item) →
  get_simulation_state sim = Some state →
  get_simulation_state (sim_after (place_item_sync sim item)) = Some state' →
  total_items state' = total_items state + 1.
Proof.
  intros Hacc Hstate Hstate'.
  destruct (not_rejected_placed sim item Hacc)
    as (bd & log & Hbd & _ & _ & Hres).
  rewrite Hres in Hstate'. simpl in Hstate'.
  apply snapshot_total_items in Hstate as ->.
  apply snapshot_total_items in Hstate' as ->. simpl.
  pose proof (count_items_insert (bins sim) (bin_id item) bd
    (mkBinData (bin_width bd) (bin_height bd) (bin_items bd ++ [item])) Hbd)
    as Hcount.
  simpl in Hcount. rewrite length_app in Hcount. simpl in Hcount. lia.
Qed.

Lemma accepted_placement_counts_one_witness :
  ∃ state state',
    (¬ rejected (place_item_sync sim_A item_C)
     ∧ get_simulation_state sim_A = Some state
     ∧ get_simulation_state (sim_after (place_item_sync sim_A item_C))
       = Some state')
    ∧ total_items state' = total_items state + 1.
Proof.
  assert (¬ rejected (place_item_sync sim_A item_C)) as Hacc
    by apply placed_not_rejected.
  destruct (proj2 (get_simulation_state_defined sim_A)) as [state Hstate].
  { intros Hempty. apply (f_equal (λ m, m !! 0)) in Hempty. discriminate Hempty. }
  destruct (placed_snapshot_defined sim_A item_C) as [state' Hstate'];
    [by eexists|].
  exists state, state'. split; [by repeat split|].
  exact (accepted_placement_counts_one sim_A item_C state state'
           Hacc Hstate Hstate').
Defined.

Lemma item_view_inj_owner bin (items items' : list PlacedItem) :
  Forall (λ item, bin_id item = bin) items →
  Forall (λ item, bin_id item = bin) items' →
  item_view <$> items = item_view <$> items' →
  items = items'.
Proof.
  intros Hown. revert items'.
  induction Hown as [|item rest Hitem _ IH]; intros items' Hown' Hviews.
  - by destruct items'.
  - destruct Hown' as [|item' rest' Hitem' Hrest']; [done|].
    rewrite !fmap_cons in Hviews.
    injection Hviews as Hview Hviews. f_equal; [|by apply IH].
    destruct item, item'. unfold item_view in Hview. simpl in *.
    simplify_eq. done.
Qed.

(** X15.  On reachable states the snapshot loses nothing: two reachable
    states with the same snapshot have the same bins with the same
    items (the bin id dropped from each item view is the key it is
    filed under). *)
Theorem snapshot_determines_bins sim sim' :
  reachable sim → reachable sim' →
  get_simulation_state sim = get_simulation_state sim' →
  bins sim = bins sim'.
Proof.
  intros Hreach Hreach' Hsame.
  destruct (proj2 (get_simulation_state_defined sim)
              (reachable_has_bins sim Hreach)) as [state Hstate].
  pose proof Hstate as Hstate'. rewrite Hsame in Hstate'.
  apply get_simulation_state_Some in Hstate as [Hbins _].
  apply get_simulation_state_Some in Hstate' as [Hbins' _].
  rewrite Hbins in Hbins'. clear Hbins Hsame state.
  apply map_eq. intros bin.
  apply (f_equal (λ m, m !! bin)) in Hbins'. rewrite !lookup_fmap in Hbins'.
  pose proof (reachable_owner_recorded sim Hreach bin) as Hown.
  pose proof (reachable_owner_recorded sim' Hreach' bin) as Hown'.
  destruct (bins sim !! bin) as [[w h items]|],
    (bins sim' !! bin) as [[w' h' items']|]; try done.
  simpl in Hbins'. injection Hbins' as -> -> Hviews _.
  f_equal. f_equal.
  eapply item_view_inj_owner; [by apply (Hown _ eq_refl)
                              | by apply (Hown' _ eq_refl) | done].
Qed.

Lemma snapshot_determines_bins_witness :
  (reachable sim_A ∧ reachable sim_AB
   ∧ get_simulation_state sim_A = get_simulation_state sim_AB)
  ∧ bins sim_A = bins sim_AB.
Proof.
  assert (reachable sim_AB) as Hreach by exact reachable_sim_A.
  assert (get_simulation_state sim_A = get_simulation_state sim_AB) as Hsame
    by reflexivity.
  split; [by repeat split; try apply reachable_sim_A|].
  exact (snapshot_determines_bins sim_A sim_AB reachable_sim_A Hreach Hsame).
Defined.

(** ** Locating the JSON object *)


Lemma depth_app text text' :
  depth (text ++ text')%list = depth text + depth text'.
Proof. induction text as [|c text IH]; simpl; [done|]. rewrite IH. lia. Qed.

Lemma space_not_brace c :
  is_space c = true → (c =? open_brace)%N = false ∧ (c =? close_brace)%N = false.
Proof.
  intros Hspace. split; apply N.eqb_neq; intros ->; discriminate Hspace.
Qed.



Lemma join_lines_cons line lines :
  lines ≠ [] →
  join_lines (line :: lines) = (line ++ newline :: join_lines lines)%list.
Proof. by destruct lines. Qed.


Lemma starts_with_brace_split line :
  starts_with_brace line = true →
  ∃ spaces rest,
    line = (spaces ++ open_brace :: rest)%list
    ∧ Forall (λ c, is_space c = true) spaces.
Proof.
  induction line as [|c line IH]; simpl; [done|].
  destruct (is_space c) eqn:Hspace.
  - intros Hstart. destruct (IH Hstart) as (spaces & rest & -> & Hspaces).
    exists (c :: spaces), rest. split; [done|]. by constructor.
  - intros Hc. apply N.eqb_eq in Hc as ->. by exists [], line.
Qed.

Lemma scan_chars_spaces brace_count spaces line :
  Forall (λ c, is_space c = true) spaces →
  scan_chars brace_count (spaces ++ line)%list = scan_chars brace_count line.
Proof.
  induction 1 as [|c spaces Hc _ IH]; simpl; [done|].
  destruct (space_not_brace c Hc) as [-> ->]. done.
Qed.


Lemma find_json_start_None output_lines :
  find_json_start output_lines = None ↔
  Forall (λ line, starts_with_brace line = false) output_lines.
Proof.
  induction output_lines as [|line rest IH]; simpl; [done|].
  destruct (starts_with_brace line) eqn:Hline.
  - split; [done|]. intros H. apply Forall_cons in H as [H _]. congruence.
  - destruct (find_json_start rest) as [j|].
    + split; [done|]. intros H. apply Forall_cons in H as [_ H].
      by apply IH in H.
    + split; [|done]. intros _. constructor; [done|]. by apply IH.
Qed.

Lemma find_json_start_skip before rest :
  Forall (λ line, starts_with_brace line = false) before →
  find_json_start (before ++ rest)
  = (λ j, (length before + j)%nat) <$> find_json_start rest.
Proof.
  induction 1 as [|line before Hline _ IH]; simpl.
  - by destruct (find_json_start rest).
  - rewrite Hline, IH. by destruct (find_json_start rest).
Qed.

Lemma extract_json_lines_skip before rest :
  Forall (λ line, starts_with_brace line = false) before →
  extract_json_lines (before ++ rest) = extract_json_lines rest.
Proof.
  intros Hbefore. unfold extract_json_lines.
  rewrite (find_json_start_skip _ _ Hbefore).
  destruct (find_json_start rest) as [j|]; simpl; [|done].
  by rewrite drop_app_add.
Qed.

(** X16.  The "No JSON output found!" error arises exactly when no line
    of the output has an opening brace as its first character after
    leading whitespace. *)
Theorem extraction_no_json_iff output_lines :
  extract_json_lines output_lines = inl NoJsonOutput
  ↔ ∀ line, line ∈ output_lines → starts_with_brace line = false.
Proof.
  rewrite <- Forall_forall, <- find_json_start_None. unfold extract_json_lines.
  destruct (find_json_start output_lines) as [j|]; [|done].
  split; [|done]. by destruct (scan_lines 0 _).
Qed.

Lemma join_lines_head spaces line lines :
  join_lines ((spaces ++ line)%list :: lines)
  = (spaces ++ join_lines (line :: lines))%list.
Proof. destruct lines; simpl; [done|]. by rewrite <- app_assoc. Qed.

Lemma scan_lines_first spaces rest lines :
  Forall (λ c, is_space c = true) spaces →
  scan_lines 0 ((spaces ++ open_brace :: rest)%list :: lines)
  = scan_lines 1 (rest :: lines).
Proof. intros Hspaces. simpl. by rewrite scan_chars_spaces. Qed.


Lemma scan_chars_app brace_count line line' :
  scan_chars brace_count (line ++ line')%list
  = match scan_chars brace_count line with
    | None => None
    | Some brace_count' => scan_chars brace_count' line'
    end.
Proof.
  revert brace_count. induction line as [|c line IH]; intros n; simpl; [done|].
  destruct (c =? open_brace)%N; [apply IH|].
  destruct (c =? close_brace)%N; [|apply IH].
  destruct (n - 1 =? 0)%Z; [done | apply IH].
Qed.

Lemma scan_chars_stays_open brace_count line :
  (∀ k, 1 <= brace_count + depth (take k line)) →
  scan_chars brace_count line = Some (brace_count + depth line).
Proof.
  revert brace_count. induction line as [|c line IH]; intros n Hpre; simpl.
  - f_equal. lia.
  - pose proof (Hpre 1%nat) as H1. simpl in H1.
    destruct (c =? open_brace)%N eqn:Hopen.
    + rewrite IH; [f_equal; lia|]. intros k. specialize (Hpre (S k)).
      simpl in Hpre. rewrite Hopen in Hpre. lia.
    + destruct (c =? close_brace)%N eqn:Hclose.
      * destruct (n - 1 =? 0)%Z eqn:Hone; [apply Z.eqb_eq in Hone; lia|].
        rewrite IH; [f_equal; lia|]. intros k. specialize (Hpre (S k)).
        simpl in Hpre. rewrite Hopen, Hclose in Hpre. lia.
      * rewrite IH; [f_equal; lia|]. intros k. specialize (Hpre (S k)).
        simpl in Hpre. rewrite Hopen, Hclose in Hpre. lia.
Qed.

Lemma first_newline_split (line rest inner tail : list N) :
  newline ∉ line → newline ∉ tail →
  (line ++ newline :: rest)%list = (inner ++ close_brace :: tail)%list →
  ∃ inner', inner = (line ++ newline :: inner')%list
            ∧ rest = (inner' ++ close_brace :: tail)%list.
Proof.
  revert inner. induction line as [|c line IH]; intros inner Hline Htail Heq.
  - destruct inner as [|c' inner]; simpl in Heq; [done|].
    injection Heq as <- ->. by exists inner.
  - destruct inner as [|c' inner]; simpl in Heq.
    + injection Heq as -> <-. destruct Htail. apply elem_of_app. right. left.
    + injection Heq as <- Heq. apply not_elem_of_cons in Hline as [_ Hline].
      destruct (IH inner Hline Htail Heq) as (inner' & -> & ->).
      by exists inner'.
Qed.

Lemma scan_lines_complete block after brace_count inner tail :
  block ≠ [] →
  (∀ line, line ∈ block → newline ∉ line) →
  newline ∉ tail →
  join_lines block = (inner ++ close_brace :: tail)%list →
  brace_count + depth inner = 1 →
  (∀ k, 1 <= brace_count + depth (take k inner)) →
  scan_lines brace_count (block ++ after) = Some (length block).
Proof.
  revert brace_count inner.
  induction block as [|line block IH]; intros n inner Hne Hlines Htail Hjoin
    Hdepth Hpre; [done|].
  destruct block as [|line' block].
  - simpl in *. subst line. rewrite scan_chars_app.
    rewrite (scan_chars_stays_open _ _ Hpre). simpl.
    replace (n + depth inner - 1 =? 0)%Z with true; [done|].
    symmetry. apply Z.eqb_eq. lia.
  - rewrite join_lines_cons in Hjoin by done.
    destruct (first_newline_split line (join_lines (line' :: block)) inner tail)
      as (inner' & -> & Hrest); [apply Hlines; left | done | done |].
    rewrite depth_app in Hdepth. simpl in Hdepth.
    assert (∀ k, 1 <= n + depth (take k line)) as Hline.
    { intros k. destruct (decide (k <= length line)%nat).
      - specialize (Hpre k). by rewrite take_app_le in Hpre.
      - specialize (Hpre (length line)). rewrite take_app_length in Hpre.
        rewrite take_ge by lia. done. }
    change ((line :: line' :: block) ++ after)%list
      with (line :: ((line' :: block) ++ after))%list.
    cbn [scan_lines]. rewrite (scan_chars_stays_open _ _ Hline).
    rewrite (IH (n + depth line) inner'); [done|done|..|done| |].
    + intros l Hl. apply Hlines. by right.
    + done.
    + lia.
    + intros k. specialize (Hpre (length line + S k)%nat).
      rewrite take_app_add' in Hpre by done. rewrite depth_app in Hpre.
      simpl in Hpre. lia.
Qed.

Lemma spaces_then_brace_unique (spaces spaces' rest rest' : list N) :
  Forall (λ c, is_space c = true) spaces →
  Forall (λ c, is_space c = true) spaces' →
  (spaces ++ open_brace :: rest)%list = (spaces' ++ open_brace :: rest')%list →
  rest = rest'.
Proof.
  intros Hs. revert spaces'. induction Hs as [|c spaces Hc _ IH];
    intros spaces' Hs' Heq.
  - destruct Hs' as [|c' spaces' Hc' _]; simpl in Heq; [by injection Heq|].
    injection Heq as <- _. discriminate Hc'.
  - destruct Hs' as [|c' spaces' Hc' Hs']; simpl in Heq.
    + injection Heq as -> _. discriminate Hc.
    + injection Heq as _ Heq. by eapply IH.
Qed.

(** X19.  Conversely, when the output is some lines that do not begin
    with an opening brace, then a block of lines that begins with one
    and reads: whitespace, the brace, a properly nested text, a closing
    brace and a remainder without line break, then that block is what
    is extracted, whatever follows it. *)
Theorem extraction_returns_block before first more after spaces inner tail :
  (∀ line, line ∈ before → starts_with_brace line = false) →
  starts_with_brace first = true →
  (∀ line, line ∈ first :: more → newline ∉ line) →
  join_lines (first :: more)
  = (spaces ++ open_brace :: inner ++ close_brace :: tail)%list →
  (∀ c, c ∈ spaces → is_space c = true) →
  nested inner →
  newline ∉ tail →
  extract_json_lines (before ++ (first :: more) ++ after)
  = inr (join_lines (first :: more)).
Proof.
  intros Hbefore Hfirst Hlines Hjoin Hspaces [Hdepth Hpre] Htail.
  rewrite extract_json_lines_skip by by apply Forall_forall.
  unfold extract_json_lines. cbn [app find_json_start]. rewrite Hfirst.
  rewrite drop_0.
  destruct (starts_with_brace_split _ Hfirst) as (spaces' & rest & -> & Hspaces').
  rewrite join_lines_head in Hjoin.
  change (open_brace :: rest) with ([open_brace] ++ rest)%list in Hjoin.
  rewrite (join_lines_head [open_brace] rest more) in Hjoin.
  apply spaces_then_brace_unique in Hjoin; [|done|by apply Forall_forall].
  rewrite (scan_lines_first _ _ _ Hspaces').
  change (rest :: more ++ after)%list with ((rest :: more) ++ after)%list.
  rewrite (scan_lines_complete (rest :: more) after 1 inner tail);
    [| done | | done | done | lia | intros k; specialize (Hpre k); lia].
  - simpl. by rewrite take_app_length.
  - intros line Hline. apply elem_of_cons in Hline as [->|Hline].
    + intros Hin. apply (Hlines (spaces' ++ open_brace :: rest)%list); [left|].
      apply elem_of_app. right. by right.
    + apply Hlines. by right.
Qed.

Lemma split_lines_nonempty text : split_lines text ≠ [].
Proof.
  destruct text as [|c text]; simpl; [done|].
  destruct (c =? newline)%N; [done|]. by destruct (split_lines text).
Qed.

Lemma split_lines_join text : join_lines (split_lines text) = text.
Proof.
  induction text as [|c text IH]; simpl; [done|].
  pose proof (split_lines_nonempty text) as Hne.
  destruct (split_lines text) as [|line lines]; [done|].
  destruct (c =? newline)%N eqn:Hc.
  - apply N.eqb_eq in Hc as ->. rewrite join_lines_cons by done.
    by rewrite IH.
  - destruct lines; simpl in *; by rewrite <- IH.
Qed.

Lemma split_lines_no_newline text line :
  line ∈ split_lines text → newline ∉ line.
Proof.
  revert line. induction text as [|c text IH]; intros line; simpl.
  - intros Hin. apply list_elem_of_singleton in Hin as ->. apply not_elem_of_nil.
  - destruct (c =? newline)%N eqn:Hc.
    + intros Hin. apply elem_of_cons in Hin as [->|Hin];
        [apply not_elem_of_nil | by apply IH].
    + destruct (split_lines text) as [|l lines].
      * intros Hin. apply list_elem_of_singleton in Hin as ->.
        apply not_elem_of_cons. split; [|apply not_elem_of_nil].
        apply N.eqb_neq in Hc. congruence.
      * intros Hin. apply elem_of_cons in Hin as [->|Hin].
        -- apply not_elem_of_cons. split.
           ++ apply N.eqb_neq in Hc. congruence.
           ++ apply IH. left.
        -- apply IH. by right.
Qed.

(** X17.  Lines that come before the first line beginning with an
    opening brace (log output of the optimizer, say) do not influence
    what is extracted. *)
Theorem extraction_skips_leading_lines before rest :
  (∀ line, line ∈ before → starts_with_brace line = false) →
  extract_json_lines (before ++ rest) = extract_json_lines rest.
Proof. intros Hbefore. by apply extract_json_lines_skip, Forall_forall. Qed.

Lemma extraction_skips_leading_lines_witness :
  (∀ line, line ∈ [to_text "[INFO] run"; to_text ""] →
           starts_with_brace line = false)
  ∧ extract_json_lines
      ([to_text "[INFO] run"; to_text ""] ++ [to_text " {p: 1} ok"])
    = inr (to_text " {p: 1} ok").
Proof.
  assert (∀ line, line ∈ [to_text "[INFO] run"; to_text ""] →
                  starts_with_brace line = false) as Hbefore.
  { intros line Hin. apply elem_of_cons in Hin as [->|Hin]; [done|].
    apply list_elem_of_singleton in Hin as ->. done. }
  split; [exact Hbefore|].
  by rewrite (extraction_skips_leading_lines _ _ Hbefore).
Defined.


Lemma extraction_returns_block_witness :
  extract_json_lines
    ([to_text "log"] ++ [to_text " {x{}"; to_text "y} z"] ++ [to_text "more"])
  = inr (join_lines [to_text " {x{}"; to_text "y} z"]).
Proof.
  apply (extraction_returns_block [to_text "log"] (to_text " {x{}")
           [to_text "y} z"] [to_text "more"] (to_text " ")
           (to_text "x{}" ++ newline :: to_text "y")%list (to_text " z")).
  - intros line Hin. apply list_elem_of_singleton in Hin as ->. reflexivity.
  - reflexivity.
  - intros line Hin. apply elem_of_cons in Hin as [->|Hin].
    + by apply (bool_decide_unpack _).
    + apply list_elem_of_singleton in Hin as ->.
      by apply (bool_decide_unpack _).
  - reflexivity.
  - intros c Hin. apply list_elem_of_singleton in Hin as ->. reflexivity.
  - split; [reflexivity|]. intros k.
    do 6 (destruct k as [|k]; [by vm_compute|]). by vm_compute.
  - by apply (bool_decide_unpack _).
Defined.

(** ** The item generator *)


(** X20.  [generate_full_230_items] returns 230 items, numbered 0 to
    229 in the order they are generated, so no two share an id. *)
Theorem generated_ids_consecutive :
  length generate_full_230_items = 230%nat
  ∧ spec_id <$> generate_full_230_items = seqZ 0 230
  ∧ NoDup (spec_id <$> generate_full_230_items).
Proof.
  assert (spec_id <$> generate_full_230_items = seqZ 0 230) as Hids
    by (by vm_compute).
  split; [by vm_compute|]. split; [exact Hids|].
  rewrite Hids. apply NoDup_seqZ.
Qed.

Lemma bump_tally item_type other item_counts :
  tally other (bump item_type item_counts)
  = tally other item_counts + (if decide (item_type = other) then 1 else 0).
Proof.
  induction item_counts as [|[key count] rest IH]; simpl.
  - destruct (decide (item_type = other)); lia.
  - destruct (decide (key = item_type)) as [->|Hne]; simpl.
    + destruct (decide (item_type = other)); lia.
    + destruct (decide (key = other)) as [->|Hne'].
      * rewrite decide_False by done. lia.
      * apply IH.
Qed.

Lemma bump_keys item_type item_counts :
  (bump item_type item_counts).*1
  = if decide (item_type ∈ item_counts.*1) then item_counts.*1
    else (item_counts.*1 ++ [item_type])%list.
Proof.
  induction item_counts as [|[key count] rest IH]; [done|].
  cbn [bump]. rewrite (fmap_cons fst (key, count) rest). cbn [fst].
  destruct (decide (key = item_type)) as [->|Hne].
  - rewrite decide_True; [done | left].
  - rewrite fmap_cons, IH. cbn [fst].
    destruct (decide (item_type ∈ rest.*1)) as [Hin|Hout].
    + rewrite decide_True; [done | by right].
    + rewrite decide_False; [done|].
      intros Hin. apply elem_of_cons in Hin as [?|?]; congruence.
Qed.

Lemma bump_NoDup item_type item_counts :
  NoDup item_counts.*1 → NoDup (bump item_type item_counts).*1.
Proof.
  intros Hnd. rewrite bump_keys. case_decide as Hin; [done|].
  apply NoDup_app. split; [done|]. split; [|apply NoDup_singleton].
  intros key Hkey Hkey'. apply list_elem_of_singleton in Hkey'. by subst.
Qed.

Lemma bump_sum item_type item_counts :
  foldr Z.add 0 (bump item_type item_counts).*2
  = foldr Z.add 0 item_counts.*2 + 1.
Proof.
  induction item_counts as [|[key count] rest IH]; [done|].
  cbn [bump]. destruct (decide (key = item_type)); rewrite !fmap_cons;
    cbn [foldr snd]; rewrite ?IH; lia.
Qed.

Lemma distribution_loop items item_counts total_value :
  let result :=
    fold_left (λ '(item_counts, total_value) item,
                 (bump (spec_type item) item_counts,
                  total_value + spec_price item))
              items (item_counts, total_value) in
  (∀ item_type,
     tally item_type result.1
     = tally item_type item_counts
       + Z.of_nat (length (filter (λ item, spec_type item = item_type) items)))
  ∧ (NoDup item_counts.*1 → NoDup result.1.*1)
  ∧ (∀ item_type, item_type ∈ result.1.*1 ↔
       item_type ∈ item_counts.*1 ∨ item_type ∈ spec_type <$> items)
  ∧ foldr Z.add 0 result.1.*2
    = foldr Z.add 0 item_counts.*2 + Z.of_nat (length items)
  ∧ result.2 = total_value + foldr Z.add 0 (spec_price <$> items).
Proof.
  revert item_counts total_value.
  induction items as [|item items IH]; intros item_counts total_value.
  - simpl. split; [intros; lia|]. split; [done|].
    split; [|split; lia]. intros t. rewrite elem_of_nil. tauto.
  - cbn [fold_left].
    destruct (IH (bump (spec_type item) item_counts)
                 (total_value + spec_price item))
      as (Htally & Hnd & Hkeys & Hsum & Htotal).
    cbv zeta. split; [|split; [|split; [|split]]].
    + intros t. rewrite Htally, bump_tally, filter_cons.
      destruct (decide (spec_type item = t)); [|lia].
      rewrite length_cons, Nat2Z.inj_succ. lia.
    + intros H. by apply Hnd, bump_NoDup.
    + intros t. rewrite Hkeys, bump_keys, fmap_cons, elem_of_cons.
      case_decide as Hin.
      * split; [tauto|]. intros [?|[->|?]]; tauto.
      * rewrite elem_of_app, list_elem_of_singleton. tauto.
    + rewrite Hsum, bump_sum, length_cons, Nat2Z.inj_succ. lia.
    + rewrite Htotal, fmap_cons. cbn [foldr]. lia.
Qed.

(** X21.  The table [print_item_distribution] builds has one row per
    type label occurring among the items and no other; each row counts
    the items of its label; the counts add up to the number of items;
    and the total value is the sum of the prices. *)
Theorem item_distribution_counts items :
  let '(item_counts, total_value) := item_distribution items in
  NoDup item_counts.*1
  ∧ (∀ item_type, item_type ∈ item_counts.*1
                  ↔ item_type ∈ spec_type <$> items)
  ∧ (∀ item_type,
       tally item_type item_counts
       = Z.of_nat (length (filter (λ item, spec_type item = item_type) items)))
  ∧ foldr Z.add 0 item_counts.*2 = Z.of_nat (length items)
  ∧ total_value = foldr Z.add 0 (spec_price <$> items).
Proof.
  pose proof (distribution_loop items [] 0) as H. cbv zeta in H.
  unfold item_distribution.
  destruct (fold_left _ items ([], 0)) as [item_counts total_value].
  simpl in H. destruct H as (Htally & Hnd & Hkeys & Hsum & Htotal).
  split; [apply Hnd, NoDup_nil_2|]. split; [|split; [|split]].
  - intros t. rewrite Hkeys, elem_of_nil. tauto.
  - intros t. by rewrite Htally.
  - by rewrite Hsum.
  - by rewrite Htotal.
Qed.

Lemma standard_bins_are_init_bins bin w h :
  (bin, w, h) ∈ generate_standard_bins
  ↔ bin_dims <$> init_bins !! bin = Some (inject_Z w, inject_Z h).
Proof.
  split.
  - intros Hin. unfold generate_standard_bins in Hin.
    repeat (apply elem_of_cons in Hin as [[= -> -> ->]|Hin]; [done|]).
    by apply elem_of_nil in Hin.
  - unfold init_bins, generate_standard_bins. intros Hdims.
    destruct (decide (bin = 0)) as [->|?];
      [rewrite lookup_insert_eq in Hdims; injection Hdims as <- <-;
       set_solver|].
    rewrite lookup_insert_ne in Hdims by done.
    destruct (decide (bin = 1)) as [->|?];
      [rewrite lookup_insert_eq in Hdims; injection Hdims as <- <-;
       set_solver|].
    rewrite lookup_insert_ne in Hdims by done.
    destruct (decide (bin = 2)) as [->|?];
      [rewrite lookup_insert_eq in Hdims; injection Hdims as <- <-;
       set_solver|].
    rewrite lookup_insert_ne in Hdims by done.
    destruct (decide (bin = 3)) as [->|?];
      [rewrite lookup_insert_eq in Hdims; injection Hdims as <- <-;
       set_solver|].
    by rewrite lookup_insert_ne, lookup_empty in Hdims.
Qed.

(** X22.  In every reachable state the simulation's bins are the ones
    [generate_standard_bins] hands to the optimizer: same ids, same
    widths and heights. *)
Theorem simulation_bins_match_generator sim :
  reachable sim →
  ∀ bin w h,
    (bin, w, h) ∈ generate_standard_bins
    ↔ ∃ bin_data, bins sim !! bin = Some bin_data
                  ∧ bin_width bin_data = inject_Z w
                  ∧ bin_height bin_data = inject_Z h.
Proof.
  intros Hreach bin w h. rewrite standard_bins_are_init_bins.
  rewrite <- (reachable_dims_fixed sim Hreach bin). split.
  - destruct (bins sim !! bin) as [bd|]; [|done]. intros [= Hw Hh].
    by exists bd.
  - intros (bd & -> & Hw & Hh). simpl. unfold bin_dims. by rewrite Hw, Hh.
Qed.

Lemma simulation_bins_match_generator_witness :
  reachable sim_A
  ∧ ((2, 200, 180) ∈ generate_standard_bins
     ↔ ∃ bin_data, bins sim_A !! 2 = Some bin_data
                   ∧ bin_width bin_data = inject_Z 200
                   ∧ bin_height bin_data = inject_Z 180).
Proof.
  split; [apply reachable_sim_A|].
  apply (simulation_bins_match_generator sim_A reachable_sim_A).
Defined.

(** ** Drawing *)


Lemma py_min_bounds a b :
  (py_min a b <= a ∧ py_min a b <= b
   ∧ (0 <= a → 0 <= b → 0 <= py_min a b))%Q.
Proof.
  unfold py_min. destruct (Qgtb a b) eqn:Hgt.
  - apply Qgtb_true in Hgt. repeat split; lra.
  - apply Qgtb_false in Hgt. repeat split; lra.
Qed.

Lemma floor_div_half d :
  (0 <= d → 0 <= floor_div d 2 ∧ floor_div d 2 <= d)%Q.
Proof.
  intros Hd. unfold floor_div. change (d / 2)%Q with (d * (1 # 2))%Q.
  split.
  - change 0%Q with (inject_Z 0). rewrite <- Zle_Qle.
    change 0 with (Qfloor 0). apply Qfloor_resp_le. lra.
  - pose proof (Qfloor_le (d * (1 # 2))) as Hfloor. lra.
Qed.

Lemma item_color_not_frame item_type :
  default "gray" (colors !! item_type) ≠ "lightgray".
Proof.
  destruct (colors !! item_type) as [color|] eqn:Hcolor; [|done]. simpl.
  assert (map_Forall (λ _ color, color ≠ "lightgray") colors) as Hall.
  { unfold colors. simpl.
    repeat (apply map_Forall_insert_2; [done|]). apply map_Forall_empty. }
  by apply (Hall _ _ Hcolor).
Qed.

Lemma frames_app calls calls' :
  frames (calls ++ calls') = (frames calls ++ frames calls')%list.
Proof. apply omap_app. Qed.

Lemma frames_draw_item item x_offset y_offset s :
  frames (draw_item item x_offset y_offset s) = [].
Proof.
  unfold draw_item. cbv zeta. rewrite frames_app.
  pose proof (item_color_not_frame (item_type item)) as Hcolor.
  repeat case_decide; simpl; try done.
  by rewrite decide_False.
Qed.

Lemma frames_items items x_offset y_offset s :
  frames (mjoin ((λ item, draw_item item x_offset y_offset s) <$> items)) = [].
Proof.
  induction items as [|item items IH]; [done|].
  cbn [fmap list_fmap mjoin list_join].
  rewrite frames_app, frames_draw_item. exact IH.
Qed.

Lemma frames_draw_bin x_offset bin bin_data :
  frames (draw_bin x_offset bin bin_data)
  = [(x_offset, (x_offset + bin_width bin_data * scale)%Q)].
Proof.
  unfold draw_bin. cbv zeta.
  pose proof (frames_items (bin_items bin_data) x_offset padding scale) as H.
  unfold frames in *. cbn [omap list_omap]. rewrite decide_True by done.
  cbn [option_bind mbind]. by rewrite H.
Qed.

Lemma frames_from_lower x_offset entries :
  (∀ entry, entry ∈ entries → (0 <= bin_width entry.2)%Q) →
  ∀ frame, frame ∈ frames (draw_bins_from x_offset entries) →
           (x_offset <= frame.1)%Q.
Proof.
  revert x_offset. induction entries as [|[bin bin_data] rest IH];
    intros x_offset Hwidths frame Hin; [by apply elem_of_nil in Hin|].
  cbn [draw_bins_from] in Hin. rewrite frames_app, frames_draw_bin in Hin.
  apply elem_of_cons in Hin as [->|Hin]; [simpl; lra|].
  assert (0 <= bin_width bin_data)%Q as Hw by (apply (Hwidths (bin, bin_data)); left).
  apply IH in Hin; [|intros entry He; apply Hwidths; by right].
  unfold scale, bin_spacing in Hin. lra.
Qed.

Lemma frames_from_spaced x_offset entries :
  (∀ entry, entry ∈ entries → (0 <= bin_width entry.2)%Q) →
  length (frames (draw_bins_from x_offset entries)) = length entries
  ∧ ∀ i j frame frame',
      (i < j)%nat →
      frames (draw_bins_from x_offset entries) !! i = Some frame →
      frames (draw_bins_from x_offset entries) !! j = Some frame' →
      (frame.2 + 20 <= frame'.1)%Q.
Proof.
  revert x_offset. induction entries as [|[bin bin_data] rest IH];
    intros x_offset Hwidths.
  - split; [done|]. intros i j frame frame' _ Hi. by destruct i.
  - cbn [draw_bins_from]. rewrite frames_app, frames_draw_bin.
    destruct (IH (x_offset + bin_width bin_data * scale + bin_spacing)%Q)
      as [Hlen Hspaced]; [intros entry He; apply Hwidths; by right|].
    split; [simpl; by rewrite Hlen|].
    intros i j frame frame' Hij Hi Hj.
    destruct j as [|j]; [lia|]. simpl in Hj.
    destruct i as [|i]; simpl in Hi.
    + injection Hi as <-. simpl.
      apply list_elem_of_lookup_2 in Hj.
      apply frames_from_lower in Hj; [|intros entry He; apply Hwidths; by right].
      unfold scale, bin_spacing in Hj. unfold scale. lra.
    + by apply (Hspaced i j); [lia|..].
Qed.

Lemma frames_from_widths x_offset entries i frame bin bin_data :
  frames (draw_bins_from x_offset entries) !! i = Some frame →
  entries !! i = Some (bin, bin_data) →
  frame.2 = (frame.1 + bin_width bin_data * 2)%Q.
Proof.
  revert x_offset i. induction entries as [|[bin' bin_data'] rest IH];
    intros x_offset i Hframe Hentry; [by destruct i|].
  cbn [draw_bins_from] in Hframe. rewrite frames_app, frames_draw_bin in Hframe.
  destruct i as [|i]; simpl in Hframe, Hentry.
  - by injection Hframe as <-; injection Hentry as <- <-.
  - by eapply IH.
Qed.

Lemma frames_draw_bins entries :
  frames (draw_bins entries) = frames (draw_bins_from padding entries).
Proof.
  unfold draw_bins.
  change (frames (DeleteAll :: ?l)) with (frames l).
  rewrite frames_app. apply app_nil_r.
Qed.

(** X23.  [draw_bins] draws one boundary per bin, left to right in
    the order of the entries, the first at 20 or further right, each as
    wide as twice its bin; when no bin has negative width, every
    boundary ends at least 20 to the left of each later one, so no two
    boundaries overlap. *)
Theorem bin_frames_spaced entries :
  (∀ entry, entry ∈ entries → (0 <= bin_width entry.2)%Q) →
  length (frames (draw_bins entries)) = length entries
  ∧ (∀ i frame bin bin_data,
       frames (draw_bins entries) !! i = Some frame →
       entries !! i = Some (bin, bin_data) →
       (20 <= frame.1)%Q ∧ frame.2 = (frame.1 + bin_width bin_data * 2)%Q)
  ∧ ∀ i j frame frame',
      (i < j)%nat →
      frames (draw_bins entries) !! i = Some frame →
      frames (draw_bins entries) !! j = Some frame' →
      (frame.2 + 20 <= frame'.1)%Q.
Proof.
  intros Hwidths. rewrite frames_draw_bins.
  destruct (frames_from_spaced padding entries Hwidths) as [Hlen Hspaced].
  split; [done|]. split; [|done].
  intros i frame bin bin_data Hframe Hentry. split.
  - apply (frames_from_lower padding entries Hwidths).
    by eapply list_elem_of_lookup_2.
  - by eapply frames_from_widths.
Qed.

Lemma draw_item_inside x_offset bin_data item call :
  within_bin bin_data item →
  (0 <= width item)%Q → (0 <= height item)%Q →
  call ∈ draw_item item x_offset padding scale →
  inside_frame x_offset bin_data call.
Proof.
  intros (Hx & Hy & Hxw & Hyh) Hw Hh. unfold draw_item, padding, scale.
  cbv zeta. intros Hin. apply elem_of_app in Hin as [Hin|Hin].
  - repeat case_decide.
    + apply list_elem_of_singleton in Hin as ->.
      split; simpl; repeat constructor; lra.
    + apply list_elem_of_singleton in Hin as ->.
      destruct (py_min_bounds (width item) (height item)) as (Hm1 & Hm2 & Hm3).
      specialize (Hm3 Hw Hh).
      split; simpl; repeat constructor; lra.
    + apply list_elem_of_singleton in Hin as ->.
      destruct (floor_div_half
                  (x_offset + x item * 2 + width item * 2
                   - (x_offset + x item * 2))%Q) as [Hf1 Hf2]; [lra|].
      split; simpl; repeat constructor; lra.
    + by apply elem_of_nil in Hin.
  - apply list_elem_of_singleton in Hin as ->. by split.
Qed.

(** X24.  When every item of a bin lies within the bin's bounds and has
    non-negative width and height, everything one iteration of
    [draw_bins] draws for that bin (the boundary and each item's
    rectangle, oval or triangle) lies within the bin's boundary. *)
Theorem items_drawn_inside_their_bin x_offset bin bin_data call :
  (0 <= bin_width bin_data)%Q → (0 <= bin_height bin_data)%Q →
  (∀ item, item ∈ bin_items bin_data →
           within_bin bin_data item
           ∧ (0 <= width item)%Q ∧ (0 <= height item)%Q) →
  call ∈ draw_bin x_offset bin bin_data →
  inside_frame x_offset bin_data call.
Proof.
  intros HW HH Hitems. unfold draw_bin. cbv zeta. intros Hin.
  apply elem_of_cons in Hin as [->|Hin].
  { unfold padding, scale. split; simpl; repeat constructor; lra. }
  apply elem_of_cons in Hin as [->|Hin]; [by split|].
  apply list_elem_of_join in Hin as (calls & Hcall & Hcalls).
  apply list_elem_of_fmap in Hcalls as (item & -> & Hitem).
  destruct (Hitems item Hitem) as (Hwithin & Hw & Hh).
  by eapply draw_item_inside.
Qed.

Lemma bin_frames_spaced_witness :
  (∀ entry, entry ∈ [(0, mkBinData 220 220 [item_A]); (1, mkBinData 180 200 [])]
            → (0 <= bin_width entry.2)%Q)
  ∧ frames (draw_bins [(0, mkBinData 220 220 [item_A]);
                       (1, mkBinData 180 200 [])])
    = [(20%Q, (20 + 220 * 2)%Q); ((20 + 220 * 2 + 20)%Q,
                                  (20 + 220 * 2 + 20 + 180 * 2)%Q)]
  ∧ ((20 + 220 * 2) + 20 <= 20 + 220 * 2 + 20)%Q.
Proof.
  assert (∀ entry, entry ∈ [(0, mkBinData 220 220 [item_A]);
                            (1, mkBinData 180 200 [])]
                   → (0 <= bin_width entry.2)%Q) as Hwidths.
  { intros entry Hin. apply elem_of_cons in Hin as [->|Hin]; [done|].
    apply list_elem_of_singleton in Hin as ->. done. }
  split; [exact Hwidths|]. split; [reflexivity|].
  destruct (bin_frames_spaced _ Hwidths) as (_ & _ & Hspaced).
  exact (Hspaced 0%nat 1%nat _ _ ltac:(lia) eq_refl eq_refl).
Defined.

Lemma items_drawn_inside_their_bin_witness :
  inside_frame 20 (mkBinData 220 220 [item_A])
    (CreateRectangle 20 20 120 120 "#FF6347" "black" 1).
Proof.
  apply (items_drawn_inside_their_bin 20 0 (mkBinData 220 220 [item_A])).
  - done.
  - done.
  - intros item Hin. apply list_elem_of_singleton in Hin as ->.
    repeat split; done.
  - right. right. left.
Defined.



(** ** Reset through the queue *)

(** X26.  Calling [reset_simulation] on an idle simulation that has at
    least one bin and then letting the loop run empties every bin,
    keeps ids and dimensions, and leaves the queue empty; the call
    itself answers "Simulation reset" before anything has happened. *)
Theorem reset_through_queue sim :
  command_queue sim = [] → bins sim ≠ ∅ →
  (reset_simulation sim).1 = "Simulation reset"
  ∧ bins (reset_simulation sim).2 = bins sim
  ∧ process_commands (reset_simulation sim).2
    = Some (mkSimulation (clear_items <$> bins sim) []).
Proof.
  intros Hqueue Hbins. split; [done|]. split; [done|].
  unfold process_commands, reset_simulation, put. simpl. rewrite Hqueue. simpl.
  by rewrite reset_simulation_sync_Some.
Qed.

Lemma reset_through_queue_witness :
  (command_queue sim_ABC = [] ∧ bins sim_ABC ≠ ∅)
  ∧ process_commands (reset_simulation sim_ABC).2 = Some init_simulation.
Proof.
  assert (bins sim_ABC ≠ ∅) as Hbins.
  { intros Hempty. apply (f_equal (λ m, m !! 0)) in Hempty. discriminate Hempty. }
  split; [by split|].
  destruct (reset_through_queue sim_ABC eq_refl Hbins) as (_ & _ & ->).
  reflexivity.
Defined.
